(** * heimdall: rule repository, rule pipeline and JWT authenticator

    A shallow embedding of the Go sources
      - package rules          (repository, rule, Execute),
      - package extractors     (QueryParameterExtractStrategy),
      - package authenticators (Session, jwtAuthenticator),
    followed by the properties of the specification that are stated about
    them.

    Conventions of the embedding.
      - A Go [string] or [[]byte] is a [string] (a sequence of bytes).
      - A Go [error] is a value of the inductive type [error]; a nil error is
        [None] in [option error].
      - A Go function returning [(T, error)] whose callers test the error
        before they touch the value returns [Result T]; where a caller uses
        the value whatever the error is, the pair is kept as a pair.
      - A nil slice and an empty slice are both the empty list.
      - Code that talks to the outside (stages of a pipeline, the key set
        endpoint) is a state transformer over an abstract world [W]. *)

From Stdlib Require Import String Ascii ZArith List Lia.
From stdpp Require Import base option list gmap strings.

Local Open Scope string_scope.
Local Open Scope list_scope.
Set Warnings "-register-all".

(* ===================================================================== *)
(** * Part I: the program                                                 *)
(* ===================================================================== *)

(** ** Go errors *)

Inductive error : Type :=
| errors_New (text : string)
| fmt_Errorf (text : string)
| fmt_Errorf_w (text : string) (wrapped : error)
| ErrAuthData
| errorchain_NewWithMessage (err : error) (message : string)
| errorchain_CausedBy (err : error) (cause : error)
| ArgumentError (Message : string) (Cause : error)
| UnauthorizedError (Message : string) (Cause : error)
| json_SyntaxError
| json_UnmarshalTypeError (Value : string) (GoType : string)
| LibraryError (pkg : string) (text : string).

Inductive Result (A : Type) : Type :=
| Ok (a : A)
| Fail (err : error).
Arguments Ok {A} a.
Arguments Fail {A} err.

(** ** Package strings and slices of the Go library, as far as the sources
    use them. Strings are byte sequences, and a rune in a string is its UTF-8
    encoding. *)

Module Strings.

Fixpoint HasPrefix (s prefix : string) {struct prefix} : bool :=
  match prefix, s with
  | EmptyString, _ => true
  | String _ _, EmptyString => false
  | String c prefix', String d s' =>
      if Ascii.eqb c d then HasPrefix s' prefix' else false
  end.

Fixpoint drop (n : nat) (s : string) : string :=
  match n, s with
  | S n', String _ s' => drop n' s'
  | _, _ => s
  end.

Definition TrimPrefix (s prefix : string) : string :=
  if HasPrefix s prefix then drop (String.length prefix) s else s.

(** [unicode.IsSpace]: the code points with the Unicode property
    White_Space. *)
Definition whiteSpace : list N :=
  [ 0x09; 0x0A; 0x0B; 0x0C; 0x0D; 0x20; 0x85; 0xA0; 0x1680;
    0x2000; 0x2001; 0x2002; 0x2003; 0x2004; 0x2005; 0x2006; 0x2007;
    0x2008; 0x2009; 0x200A; 0x2028; 0x2029; 0x202F; 0x205F; 0x3000 ]%N.

Definition IsSpace (r : N) : bool := existsb (N.eqb r) whiteSpace.

(** [utf8.AppendRune]: the UTF-8 encoding of a code point (no surrogate,
    at most U+10FFFF). *)
Definition EncodeRune (r : N) : string :=
  let b (n : N) (s : string) := String (ascii_of_N n) s in
  if (r <? 0x80)%N then b r EmptyString
  else if (r <? 0x800)%N then
    b (0xC0 + r / 0x40)%N (b (0x80 + r mod 0x40)%N EmptyString)
  else if (r <? 0x10000)%N then
    b (0xE0 + r / 0x1000)%N
      (b (0x80 + (r / 0x40) mod 0x40)%N (b (0x80 + r mod 0x40)%N EmptyString))
  else
    b (0xF0 + r / 0x40000)%N
      (b (0x80 + (r / 0x1000) mod 0x40)%N
         (b (0x80 + (r / 0x40) mod 0x40)%N (b (0x80 + r mod 0x40)%N EmptyString))).

Fixpoint take (n : nat) (s : string) : string :=
  match n, s with
  | S n', String c s' => String c (take n' s')
  | _, _ => EmptyString
  end.

Definition HasSuffix (s suffix : string) : bool :=
  (String.length suffix <=? String.length s)%nat
  && String.eqb (drop (String.length s - String.length suffix) s) suffix.

(** The white space of a string, as its bytes have it. [strings.TrimSpace]
    decodes the runes of the string from the front, and then from the back,
    for as long as [unicode.IsSpace] holds of the rune it decoded. The bytes
    at a place decode to a white space rune exactly when they are the UTF-8
    encoding of a white space code point: bytes that are no valid UTF-8
    decode to U+FFFD, which is no white space, and the decoder accepts the
    shortest encoding of a code point only. *)
Definition spaces : list string := map EncodeRune whiteSpace.

(** The encoding of the white space rune the string starts with, and of the
    one it ends with. *)
Definition leadingSpace (s : string) : option string :=
  List.find (HasPrefix s) spaces.

Definition trailingSpace (s : string) : option string :=
  List.find (HasSuffix s) spaces.

(** The two loops; each turn takes a rune of at least one byte off, so the
    length of the string bounds the number of turns. *)
Fixpoint trimLeft (turns : nat) (s : string) : string :=
  match turns with
  | 0 => s
  | S turns' =>
      match leadingSpace s with
      | Some w => trimLeft turns' (drop (String.length w) s)
      | None => s
      end
  end.

Fixpoint trimRight (turns : nat) (s : string) : string :=
  match turns with
  | 0 => s
  | S turns' =>
      match trailingSpace s with
      | Some w => trimRight turns' (take (String.length s - String.length w) s)
      | None => s
      end
  end.

Definition TrimLeftSpace (s : string) : string := trimLeft (String.length s) s.

Definition TrimRightSpace (s : string) : string := trimRight (String.length s) s.

Definition TrimSpace (s : string) : string := TrimRightSpace (TrimLeftSpace s).

(** Vocabulary for what trimming achieves: a string that is the text of
    white space runes only, and a string that neither starts nor ends with a
    white space rune. *)
Definition join (l : list string) : string := fold_right String.append EmptyString l.

Definition allSpace (s : string) : Prop :=
  ∃ runes, Forall (λ r, IsSpace r = true) runes ∧ s = join (map EncodeRune runes).

Definition startsWithSpace (s : string) : bool :=
  match leadingSpace s with Some _ => true | None => false end.

Definition endsWithSpace (s : string) : bool :=
  match trailingSpace s with Some _ => true | None => false end.

(** [strings.Count(s, sep)] for a separator of one byte. *)
Fixpoint Count (s : string) (sep : ascii) : nat :=
  match s with
  | EmptyString => 0
  | String c s' => (if Ascii.eqb c sep then 1 else 0) + Count s' sep
  end.

End Strings.

Module Slices.

Fixpoint Contains (s : list string) (v : string) : bool :=
  match s with
  | [] => false
  | x :: s' => if String.eqb x v then true else Contains s' v
  end.

End Slices.

(** ** Package heimdall: the subject and its per-request context *)

Inductive JSON : Type :=
| JNull
| JBool (b : bool)
| JNumber (n : Z)
| JString (s : string)
| JArray (items : list JSON)
| JObject (members : list (string * JSON)).

Record Subject : Type := {
  Id : string;
  Attributes : gmap string JSON  (* the nil map reads as the empty map *)
}.

Record SubjectContext : Type := {
  sc_Subject : option Subject
}.

(** A [context.Context] is only handed on; it is kept as the list of the
    values it carries. *)
Definition Context : Type := list (string * string).

(** ** Package handler: request context and stage interfaces *)

Record RequestContext : Type := {
  Header : string → string;
  Cookie : string → string;
  Query : string → string;
  Form : string → string;
  Body : string
}.

(** Modelled from the spec: the request context is produced by the transport
    layer, which is not among the sources. Its accessors are read-only and
    answer with a string; for a name that is absent they answer with the
    empty string. *)
Definition requestContextOf (headers cookies query form : gmap string string)
    (body : string) : RequestContext :=
  {| Header name := default "" (headers !! name);
     Cookie name := default "" (cookies !! name);
     Query name := default "" (query !! name);
     Form name := default "" (form !! name);
     Body := body |}.

Inductive Level := DebugLevel | InfoLevel | ErrorLevel.

Record LogEntry : Type := {
  log_level : Level;
  log_err : option error;
  log_fields : list (string * string);
  log_msg : string
}.

(** An action on the outside world [W]. *)
Definition IO {W : Type} (A : Type) : Type := W → A * W.

Module Handler.
Section Stages.
Context {W : Type}.

Record Authenticator : Type := {
  Authenticate :
    Context → RequestContext → SubjectContext → IO (W := W) (SubjectContext * option error)
}.

Record Authorizer : Type := {
  Authorize :
    Context → RequestContext → SubjectContext → IO (W := W) (SubjectContext * option error)
}.

Record Hydrator : Type := {
  Hydrate : Context → SubjectContext → IO (W := W) (SubjectContext * option error)
}.

Record Mutator : Type := {
  Mutate : Context → SubjectContext → IO (W := W) (SubjectContext * option error)
}.

Record ErrorHandler : Type := {
  HandleError : Context → error → IO (W := W) (option error)
}.

End Stages.
Arguments Authenticator : clear implicits.
Arguments Authorizer : clear implicits.
Arguments Hydrator : clear implicits.
Arguments Mutator : clear implicits.
Arguments ErrorHandler : clear implicits.
End Handler.

(** ** Package rules *)

Module Rules.
Import Handler.

Definition ErrNoRuleFound : error := errors_New "no rule found".

Inductive ChangeType := Create | Remove.

Record RuleSetChangedEvent : Type := {
  Src : string;
  Definition_ : string;
  ChangeType_ : ChangeType
}.

(** The calls a rule makes on its five collaborators. *)
Inductive Call : Type :=
| CallAuthenticate
| CallAuthorize
| CallHydrate
| CallMutate
| CallHandleError (err : error).

Section WithWorld.
Context {W Cfg : Type}.

Record RuleConfig : Type := {
  ID : string;
  URL : string;
  Methods : list string;
  Authenticators : Cfg;
  Authorizer_ : Cfg;
  Hydrators : Cfg;
  Mutators : Cfg;
  ErrorHandlers : Cfg
}.

(** [pipeline.HandlerFactory]: an opaque provider of stages. *)
Record HandlerFactory : Type := {
  CreateAuthenticator : Cfg → Result (Authenticator W);
  CreateAuthorizer : Cfg → Result (Authorizer W);
  CreateHydrator : Cfg → Result (Hydrator W);
  CreateMutator : Cfg → Result (Mutator W);
  CreateErrorHandler : Cfg → Result (ErrorHandler W)
}.

Record rule : Type := {
  id : string;
  url : string;
  methods : list string;
  srcID : string;
  an : Authenticator W;
  az : Authorizer W;
  h : Hydrator W;
  m : Mutator W;
  eh : ErrorHandler W
}.

(** The repository: the fields the modelled functions read or write. The
    logger is the list of the entries written so far. The mutex, the queue
    and the quit channel belong to the concurrent shell and are left out:
    the events are processed one after the other. *)
Record repository : Type := {
  hf : HandlerFactory;
  rules : list rule;
  logger : list LogEntry
}.

Definition log (r : repository) (e : LogEntry) : repository :=
  {| hf := hf r; rules := rules r; logger := logger r ++ [e] |}.

(** *** rule *)

Definition MatchesURL (r : rule) (requestURL : string) : bool := true.

Definition MatchesMethod (r : rule) (method : string) : bool :=
  Slices.Contains (methods r) method.

Definition ID_ (r : rule) : string := id r.

(** The state of one [Execute]: the outside world, the calls made so far on
    the collaborators, and what was written to the logger of the context. *)
Record ExecState : Type := {
  world : W;
  calls : list Call;
  logs : list LogEntry
}.

Definition M (A : Type) : Type := ExecState → A * ExecState.

#[export] Instance M_ret : MRet M := λ A a s, (a, s).
#[export] Instance M_bind : MBind M :=
  λ A B f c s, let '(a, s') := c s in f a s'.

(** A call on a collaborator: it is recorded, then it acts on the world. *)
Definition invoke {A} (c : Call) (act : IO (W := W) A) : M A :=
  λ s, let '(a, w) := act (world s) in
       (a, {| world := w; calls := calls s ++ [c]; logs := logs s |}).

Definition logInfo (err : error) (msg : string) : M unit :=
  λ s, (tt, {| world := world s; calls := calls s;
               logs := logs s ++ [ {| log_level := InfoLevel; log_err := Some err;
                                      log_fields := []; log_msg := msg |} ] |}).

Definition Execute (r : rule) (ctx : Context) (reqCtx : RequestContext)
  : M (option SubjectContext * option error) :=
  let subjectCtx := {| sc_Subject := None |} in
  '(subjectCtx, err) ← invoke CallAuthenticate (Authenticate (an r) ctx reqCtx subjectCtx);
  match err with
  | Some err =>
      _ ← logInfo err "Authentication failed";
      res ← invoke (CallHandleError err) (HandleError (eh r) ctx err);
      mret (None, res)
  | None =>
  '(subjectCtx, err) ← invoke CallAuthorize (Authorize (az r) ctx reqCtx subjectCtx);
  match err with
  | Some err =>
      _ ← logInfo err "Authorization failed";
      res ← invoke (CallHandleError err) (HandleError (eh r) ctx err);
      mret (None, res)
  | None =>
  '(subjectCtx, err) ← invoke CallHydrate (Hydrate (h r) ctx subjectCtx);
  match err with
  | Some err =>
      _ ← logInfo err "Hydration failed";
      res ← invoke (CallHandleError err) (HandleError (eh r) ctx err);
      mret (None, res)
  | None =>
  '(subjectCtx, err) ← invoke CallMutate (Mutate (m r) ctx subjectCtx);
  match err with
  | Some err =>
      _ ← logInfo err "Mutation failed";
      res ← invoke (CallHandleError err) (HandleError (eh r) ctx err);
      mret (None, res)
  | None => mret (Some subjectCtx, None)
  end end end end.

(** *** repository *)

Fixpoint FindRule_range (rs : list rule) (requestURL : string)
  : option rule * option error :=
  match rs with
  | [] => (None, Some ErrNoRuleFound)
  | rule :: rs' =>
      if MatchesURL rule requestURL then (Some rule, None)
      else FindRule_range rs' requestURL
  end.

Definition FindRule (r : repository) (requestURL : string)
  : option rule * option error :=
  FindRule_range (rules r) requestURL.

Definition newRule (r : repository) (srcID : string) (ruleConfig : RuleConfig)
  : Result rule :=
  match CreateAuthenticator (hf r) (Authenticators ruleConfig) with
  | Fail err => Fail err
  | Ok authenticator =>
  match CreateAuthorizer (hf r) (Authorizer_ ruleConfig) with
  | Fail err => Fail err
  | Ok authorizer =>
  match CreateHydrator (hf r) (Hydrators ruleConfig) with
  | Fail err => Fail err
  | Ok hydrator =>
  match CreateMutator (hf r) (Mutators ruleConfig) with
  | Fail err => Fail err
  | Ok mutator =>
  match CreateErrorHandler (hf r) (ErrorHandlers ruleConfig) with
  | Fail err => Fail err
  | Ok errorHandler =>
      Ok {| id := ID ruleConfig;
            url := URL ruleConfig;
            methods := Methods ruleConfig;
            srcID := srcID;
            an := authenticator;
            az := authorizer;
            h := hydrator;
            m := mutator;
            eh := errorHandler |}
  end end end end end.

(** [yaml.UnmarshalStrict] into [[]config.RuleConfig] is the YAML library's;
    it is a parameter of the functions that parse a rule set. *)
Class RuleSetDecoder : Type :=
  yaml_UnmarshalStrict : string → Result (list RuleConfig).

Section Loading.
Context `{!RuleSetDecoder}.

Definition parseRuleSetFromYaml (data : string) : Result (list RuleConfig) :=
  match yaml_UnmarshalStrict data with
  | Fail err => Fail err
  | Ok rcs => Ok rcs
  end.

(** The loop of [loadRules]. The slice is made with the length of [rcs] and
    filled at the indices 0, 1, 2, ... in turn; [filled] is the part written
    so far. A failing configuration gives up the slice: nil is returned. *)
Fixpoint loadRules_range (r : repository) (srcID : string)
    (rcs : list RuleConfig) (filled : list rule) : list rule * option error :=
  match rcs with
  | [] => (filled, None)
  | rc :: rcs' =>
      match newRule r srcID rc with
      | Fail err => ([], Some err)
      | Ok rule => loadRules_range r srcID rcs' (filled ++ [rule])
      end
  end.

Definition loadRules (r : repository) (srcID : string) (definition : string)
  : list rule * option error :=
  match parseRuleSetFromYaml definition with
  | Fail err => ([], Some err)
  | Ok rcs => loadRules_range r srcID rcs []
  end.

Definition addRule (r : repository) (rule : rule) : repository :=
  {| hf := hf r;
     rules := rules r ++ [rule];
     logger := logger r ++
       [ {| log_level := DebugLevel; log_err := None;
            log_fields := [("src", srcID rule); ("id", id rule)];
            log_msg := "Rule added" |} ] |}.

Definition removeRules (r : repository) (srcID : string) : repository :=
  log r {| log_level := InfoLevel; log_err := None;
           log_fields := [("src", srcID)]; log_msg := "Removing rules" |}.
  (* TODO: implement remove rule *)

Definition onRuleSetCreated (r : repository) (srcID : string) (definition : string)
  : repository :=
  let r := log r {| log_level := InfoLevel; log_err := None;
                    log_fields := [("src", srcID)]; log_msg := "Loading rule set" |} in
  let '(rules, err) := loadRules r srcID definition in
  let r :=
    match err with
    | Some err =>
        log r {| log_level := ErrorLevel; log_err := Some err;
                 log_fields := [("src", srcID)];
                 log_msg := "Failed loading rule set" |}
    | None => r
    end in
  foldl addRule r rules.

Definition onRuleSetDeleted (r : repository) (src : string) : repository :=
  removeRules r src.

(** One turn of the loop of [watchRuleSetChanges] on an event taken from the
    queue, and the loop over the events received until the quit signal. *)
Definition dispatch (r : repository) (evt : RuleSetChangedEvent) : repository :=
  match ChangeType_ evt with
  | Create => onRuleSetCreated r (Src evt) (Definition_ evt)
  | Remove => onRuleSetDeleted r (Src evt)
  end.

Definition watchRuleSetChanges (r : repository) (queue : list RuleSetChangedEvent)
  : repository :=
  foldl dispatch r queue.

End Loading.
End WithWorld.

Arguments RuleConfig : clear implicits.
Arguments HandlerFactory : clear implicits.
Arguments rule : clear implicits.
Arguments repository : clear implicits.
Arguments RuleSetDecoder : clear implicits.
Arguments ExecState : clear implicits.

End Rules.

(** ** Package extractors *)

Module Extractors.

Record QueryParameterExtractStrategy : Type := {
  Name : string;
  Prefix : string
}.

Definition GetAuthData (es : QueryParameterExtractStrategy) (s : RequestContext)
  : string * option error :=
  let val := Query s (Name es) in
  if negb (String.length val =? 0)%nat then
    (Strings.TrimSpace (Strings.TrimPrefix val (Prefix es)), None)
  else
    ("", Some (errorchain_NewWithMessage ErrAuthData
                 ("no '" +:+ Name es +:+ "' query parameter present"))).

(** What [GetAuthData] returns when it finds no value. *)
Definition noQueryParameter (es : QueryParameterExtractStrategy) : string * option error :=
  ("", Some (errorchain_NewWithMessage ErrAuthData
               ("no '" +:+ Name es +:+ "' query parameter present"))).

(** The strategies an authenticator can be configured with.
    [QueryParameter] is the one of the sources. *)
Inductive AuthDataExtractStrategy : Type :=
| HeaderValue (Name Prefix : string)
| FormParameter (Name Prefix : string)
| QueryParameter (es : QueryParameterExtractStrategy)
| Composite (strategies : list AuthDataExtractStrategy).

(** Modelled from the spec: HeaderValueExtractStrategy is not among the
    sources. It reads a named header, strips a configured prefix, trims
    white space, and fails if the header is absent. *)
Definition HeaderValue_GetAuthData (name prefix : string) (s : RequestContext)
  : string * option error :=
  let val := Header s name in
  if negb (String.length val =? 0)%nat then
    (Strings.TrimSpace (Strings.TrimPrefix val prefix), None)
  else
    ("", Some (errorchain_NewWithMessage ErrAuthData
                 ("no '" +:+ name +:+ "' header present"))).

(** Modelled from the spec: FormParameterExtractStrategy is not among the
    sources. It reads a named form parameter, trimming a configured prefix,
    and fails if the parameter is absent. *)
Definition FormParameter_GetAuthData (name prefix : string) (s : RequestContext)
  : string * option error :=
  let val := Form s name in
  if negb (String.length val =? 0)%nat then
    (Strings.TrimSpace (Strings.TrimPrefix val prefix), None)
  else
    ("", Some (errorchain_NewWithMessage ErrAuthData
                 ("no '" +:+ name +:+ "' form parameter present"))).

(** Modelled from the spec: CompositeExtractStrategy is not among the
    sources. It tries an ordered list of strategies and returns the first
    successful result; it fails, with an error that gathers the failures,
    only if all of them fail. *)
Fixpoint Composite_GetAuthData
    (get : AuthDataExtractStrategy → string * option error)
    (strategies : list AuthDataExtractStrategy) (failed : error)
  : string * option error :=
  match strategies with
  | [] => ("", Some failed)
  | es :: strategies' =>
      match get es with
      | (val, None) => (val, None)
      | (_, Some err) =>
          Composite_GetAuthData get strategies' (errorchain_CausedBy failed err)
      end
  end.

Fixpoint Strategy_GetAuthData (es : AuthDataExtractStrategy) (s : RequestContext)
  : string * option error :=
  match es with
  | HeaderValue name prefix => HeaderValue_GetAuthData name prefix s
  | FormParameter name prefix => FormParameter_GetAuthData name prefix s
  | QueryParameter es => GetAuthData es s
  | Composite strategies =>
      Composite_GetAuthData (λ es, Strategy_GetAuthData es s) strategies ErrAuthData
  end.

End Extractors.

(** ** Libraries the authenticators call: JSON text, JOSE, YAML, transport *)

(** Raw JSON text. [gjson.GetBytes(data, path).Raw] is the text of the value
    found at [path], and the empty string when there is none.
    [json_parse] reads a JSON text: [None] for a text that is not valid JSON
    (the empty text is not), the value otherwise. *)
Class JSONText : Type := {
  gjson_GetBytes_Raw : string → string → string;
  json_parse : string → option JSON;
  json_parse_null : json_parse "null" = Some JNull;
  json_parse_empty : json_parse "" = None
}.

Module Json.
Section WithText.
Context `{!JSONText}.

(** The word [encoding/json] uses for the kind of a value in an
    [UnmarshalTypeError]. *)
Definition kind (v : JSON) : string :=
  match v with
  | JNull => "null"
  | JBool _ => "bool"
  | JNumber _ => "number"
  | JString _ => "string"
  | JArray _ => "array"
  | JObject _ => "object"
  end.

(** [json.Unmarshal(data, &v)] for [v] a string: a JSON string is stored,
    JSON null leaves [v] as it is, any other value is a type error. *)
Definition Unmarshal_string (data : string) (v : string) : Result string :=
  match json_parse data with
  | None => Fail json_SyntaxError
  | Some JNull => Ok v
  | Some (JString s) => Ok s
  | Some other => Fail (json_UnmarshalTypeError (kind other) "string")
  end.

(** [json.Unmarshal(data, &v)] for [v] a [map[string]interface{}]: the
    members of a JSON object are stored in turn (a later member with the
    same name overwrites an earlier one), JSON null leaves [v] as it is, any
    other value is a type error. *)
Definition Unmarshal_map (data : string) (v : gmap string JSON)
  : Result (gmap string JSON) :=
  match json_parse data with
  | None => Fail json_SyntaxError
  | Some JNull => Ok v
  | Some (JObject members) =>
      Ok (foldl (λ acc kv, <[kv.1 := kv.2]> acc) v members)
  | Some other =>
      Fail (json_UnmarshalTypeError (kind other) "map[string]interface {}")
  end.

End WithText.
End Json.

Module Stringsx.

(** Modelled from the spec: stringsx.Coalesce is not among the sources. The
    result of a locator is null-coalesced: the first of the values that is
    not empty is taken, and the empty string if there is none. *)
Fixpoint Coalesce (values : list string) : string :=
  match values with
  | [] => ""
  | v :: values' => if negb (String.length v =? 0)%nat then v else Coalesce values'
  end.

End Stringsx.

(** ** Package authenticators *)

Module Authenticators.

(** *** Session *)

Record Session : Type := {
  SubjectFrom : string;
  AttributesFrom : string
}.

Section SessionCode.
Context `{!JSONText}.

Definition GetSubject (s : Session) (rawData : string)
  : option Subject * option error :=
  let subjectId : string := "" in
  let attributes : gmap string JSON := ∅ in
  let rawSubjectId :=
    Stringsx.Coalesce [gjson_GetBytes_Raw rawData (SubjectFrom s); "null"] in
  match Json.Unmarshal_string rawSubjectId subjectId with
  | Fail err =>
      (None, Some (fmt_Errorf_w
         "configured subject_from GJSON path returned an error on JSON output" err))
  | Ok subjectId =>
  let rawAttributes :=
    Stringsx.Coalesce [gjson_GetBytes_Raw rawData (AttributesFrom s); "null"] in
  match Json.Unmarshal_map rawAttributes attributes with
  | Fail err =>
      (None, Some (fmt_Errorf_w
         "configured attributes_from GJSON path returned an error on JSON output" err))
  | Ok attributes =>
      (Some {| Id := subjectId; Attributes := attributes |}, None)
  end end.

End SessionCode.

(** The two errors of [GetSubject], around their cause. *)
Definition subjectFromError (err : error) : error :=
  fmt_Errorf_w "configured subject_from GJSON path returned an error on JSON output" err.

Definition attributesFromError (err : error) : error :=
  fmt_Errorf_w "configured attributes_from GJSON path returned an error on JSON output" err.


(** *** The types the JWT authenticator is built from *)

(** [endpoint.Endpoint]: the fields the sources read or write, and the
    address the request goes to. *)
Record Endpoint : Type := {
  URL : string;
  Method : string;
  Headers : gmap string string  (* the nil map reads as the empty map *)
}.

(** Modelled from the spec: oauth2.Expectation is not among the sources. The
    assertion policy holds the allowed signature algorithms, the expected
    issuer, the expected audiences, the expected scopes and the clock skew
    tolerance. *)
Record Expectation : Type := {
  AllowedAlgorithms : list string;
  Issuer : string;
  Audiences : list string;
  Scopes : list string;
  ClockSkew : Z
}.

(** Modelled from the spec: Expectation.IsAlgorithmAllowed is not among the
    sources. The algorithm of the key is checked against the allow-list. *)
Definition IsAlgorithmAllowed (e : Expectation) (alg : string) : bool :=
  Slices.Contains (AllowedAlgorithms e) alg.

Record SubjectExtrator : Type := {
  se_GetSubject : string → option Subject * option error
}.

Record AuthDataGetter : Type := {
  adg_GetAuthData : RequestContext → string * option error
}.

Definition sessionExtractor `{!JSONText} (s : Session) : SubjectExtrator :=
  {| se_GetSubject := GetSubject s |}.

Definition strategyGetter (es : Extractors.AuthDataExtractStrategy) : AuthDataGetter :=
  {| adg_GetAuthData := Extractors.Strategy_GetAuthData es |}.

Record jwtAuthenticator : Type := {
  e : Endpoint;
  a : Expectation;
  se : SubjectExtrator;
  adg : AuthDataGetter
}.

(** The configuration [NewJwtAuthenticatorFromYAML] decodes; [es] of the
    data source is nil when the configuration names none. *)
Record config : Type := {
  conf_Endpoint : Endpoint;
  conf_AuthDataSource : option Extractors.AuthDataExtractStrategy;
  conf_JwtAssertions : Expectation;
  conf_Session : Session
}.

(** *** go-jose *)

Record JSONWebKey : Type := {
  KeyID : string;
  Algorithm : string;
  Key : string
}.

Record JSONWebKeySet : Type := {
  Keys : list JSONWebKey
}.

Record Header : Type := {
  Header_KeyID : string;
  Header_Algorithm : string
}.

Record JSONWebToken : Type := {
  token_Headers : list Header;
  token_payload : string
}.

(** [jwks.Key(kid)]: the keys of the set with this id, in their order. *)
Definition JSONWebKeySet_Key (jwks : JSONWebKeySet) (kid : string) : list JSONWebKey :=
  filter (λ k, KeyID k = kid) (Keys jwks).

Definition ES256 : string := "ES256".
Definition ES384 : string := "ES384".
Definition ES512 : string := "ES512".
Definition PS256 : string := "PS256".
Definition PS384 : string := "PS384".
Definition PS512 : string := "PS512".

(** The signature algorithms of JOSE that use a key pair. *)
Definition asymmetricAlgorithms : list string :=
  [ "RS256"; "RS384"; "RS512"; "ES256"; "ES384"; "ES512";
    "PS256"; "PS384"; "PS512"; "EdDSA" ].

(** What the libraries and the packages outside the sources do for the
    authenticator: decoding of the configuration, validation of its parts,
    the request to the endpoint, and the JOSE operations. *)
Class Libraries (W : Type) : Type := {
  Claims : Type;
  yaml_UnmarshalStrict_config : string → Result config;
  yaml_Unmarshal_assertions : string → Result Expectation;
  Expectation_Validate : Expectation → option error;
  Endpoint_Validate : Endpoint → option error;
  SendRequest : Endpoint → Context → option string → IO (W := W) (string * option error);
  json_Unmarshal_JSONWebKeySet : string → Result JSONWebKeySet;
  jwt_ParseSigned : string → Result JSONWebToken;
  token_Claims : JSONWebToken → JSONWebKeySet → Result (gmap string JSON * Claims);
  Claims_Validate : Claims → Expectation → option error;
  json_Marshal : gmap string JSON → Result string
}.

(** [WithConfig] hands out pointers: the authenticators live in a store, a
    pointer is a location of it, and a pointer with no object behind it is
    nil. The answer is [None] when the call dereferences nil. *)
Abbreviation store := (gmap positive jwtAuthenticator).

Section JwtCode.
Context {W : Type} `{!Libraries W, !JSONText}.

Definition defaultAllowedAlgorithms : list string :=
  [ (* ECDSA *) ES256; ES384; ES512;
    (* RSA-PSS *) PS256; PS384; PS512 ].

Definition defaultAuthDataSource : Extractors.AuthDataExtractStrategy :=
  Extractors.Composite
    [ Extractors.HeaderValue "Authorization" "Bearer";
      Extractors.FormParameter "access_token" "";
      Extractors.QueryParameter
        {| Extractors.Name := "access_token"; Extractors.Prefix := "" |} ].

Definition NewJwtAuthenticatorFromYAML (rawConfig : string)
  : option jwtAuthenticator * option error :=
  match yaml_UnmarshalStrict_config rawConfig with
  | Fail err => (None, Some err)
  | Ok conf =>
  match Expectation_Validate (conf_JwtAssertions conf) with
  | Some err =>
      (None, Some (ArgumentError "failed to validate assertions configuration" err))
  | None =>
  let endpoint := conf_Endpoint conf in
  let headers := Headers endpoint in
  let headers :=
    match headers !! "Accept-Type" with
    | Some _ => headers
    | None => <["Accept-Type" := "application/json"]> headers
    end in
  let method :=
    if (String.length (Method endpoint) =? 0)%nat then "GET" else Method endpoint in
  let endpoint := {| URL := URL endpoint; Method := method; Headers := headers |} in
  let assertions := conf_JwtAssertions conf in
  let assertions :=
    if (length (AllowedAlgorithms assertions) =? 0)%nat then
      {| AllowedAlgorithms := defaultAllowedAlgorithms;
         Issuer := Issuer assertions;
         Audiences := Audiences assertions;
         Scopes := Scopes assertions;
         ClockSkew := ClockSkew assertions |}
    else assertions in
  match Endpoint_Validate endpoint with
  | Some err =>
      (None, Some (ArgumentError "failed to validate endpoint configuration" err))
  | None =>
  let session := conf_Session conf in
  let session :=
    if (String.length (SubjectFrom session) =? 0)%nat then
      {| SubjectFrom := "sub"; AttributesFrom := AttributesFrom session |}
    else session in
  let adg :=
    match conf_AuthDataSource conf with
    | None => defaultAuthDataSource
    | Some es => es
    end in
  (Some {| e := endpoint;
           a := assertions;
           se := sessionExtractor session;
           adg := strategyGetter adg |}, None)
  end end end.

(** The loop over the headers of the token: the keys found for the first
    header whose key id is in the set, or what the last lookup gave. *)
Fixpoint lookupKeys (jwks : JSONWebKeySet) (headers : list Header)
    (keys : list JSONWebKey) : list JSONWebKey :=
  match headers with
  | [] => keys
  | h :: headers' =>
      let keys := JSONWebKeySet_Key jwks (Header_KeyID h) in
      if negb (length keys =? 0)%nat then keys
      else lookupKeys jwks headers' keys
  end.

Definition verifyTokenAndGetClaims (recv : jwtAuthenticator) (jwtRaw : string)
    (jwks : JSONWebKeySet) : Result string :=
  if negb (Strings.Count jwtRaw "." =? 2)%nat then
    Fail (errors_New "unsupported jwt format")
  else
  match jwt_ParseSigned jwtRaw with
  | Fail err => Fail err
  | Ok token =>
  let keys := lookupKeys jwks (token_Headers token) [] in
  (* even the spec allows for multiple keys for the given id, we do not *)
  match keys with
  | [key0] =>
      if negb (IsAlgorithmAllowed (a recv) (Algorithm key0)) then
        Fail (fmt_Errorf (Algorithm key0 +:+ " algorithm is not allowed"))
      else
      match token_Claims token jwks with
      | Fail err => Fail err
      | Ok (mapClaims, claims) =>
      match Claims_Validate claims (a recv) with
      | Some err =>
          Fail (UnauthorizedError
                  "access token does not satisfy assertion conditions" err)
      | None =>
      match json_Marshal mapClaims with
      | Fail err => Fail err
      | Ok rawPayload => Ok rawPayload
      end end end
  | _ => Fail (errors_New "no (unique) key found for the given key id")
  end end.

Definition Authenticate (recv : jwtAuthenticator) (ctx : Context)
    (as_ : RequestContext) (sc : SubjectContext)
  : IO (W := W) (SubjectContext * option error) := λ w,
  (* request jwks endpoint to verify jwt *)
  let '((rawBody, err), w) := SendRequest (e recv) ctx None w in
  match err with
  | Some err => ((sc, Some err), w)
  | None =>
  (* unmarshal the received key set *)
  match json_Unmarshal_JSONWebKeySet rawBody with
  | Fail err => ((sc, Some err), w)
  | Ok jwks =>
  let '(jwtRaw, err) := adg_GetAuthData (adg recv) as_ in
  match err with
  | Some err => ((sc, Some (ArgumentError "no jwt present" err)), w)
  | None =>
  match verifyTokenAndGetClaims recv jwtRaw jwks with
  | Fail err => ((sc, Some err), w)
  | Ok rawClaims =>
  let '(subject, err) := se_GetSubject (se recv) rawClaims in
  let sc := {| sc_Subject := subject |} in
  match err with
  | Some err => ((sc, Some err), w)
  | None => ((sc, None), w)
  end end end end end.

(** The authenticator as a stage of a rule. *)
Definition asAuthenticator (recv : jwtAuthenticator) : Handler.Authenticator W :=
  {| Handler.Authenticate := Authenticate recv |}.

Definition WithConfig (this : positive) (config : string) (σ : store)
  : option ((option positive * option error) * store) :=
  (* this authenticator allows assertions to be redefined on the rule level *)
  if (String.length config =? 0)%nat then Some ((Some this, None), σ)
  else
  match yaml_Unmarshal_assertions config with
  | Fail err => Some ((None, Some err), σ)
  | Ok conf_JwtAssertions =>
      recv ← σ !! this;
      let new := fresh (dom σ) in
      Some ((Some new, None),
            <[new := {| e := e recv;
                        a := conf_JwtAssertions;
                        se := se recv;
                        adg := adg recv |}]> σ)
  end.

End JwtCode.
End Authenticators.

(** ** Package authenticators: the authentication data authenticator *)

Module AuthenticationData.
Import Authenticators.

Record authenticationDataAuthenticator : Type := {
  ada_Endpoint : Endpoint;
  ada_SubjectExtractor : SubjectExtrator;
  ada_AuthDataGetter : AuthDataGetter
}.

(** [AuthenticationDataSource] with its method [Strategy], as far as the
    constructor uses it: the getter it hands out. *)
Record AuthenticationDataSource : Type := {
  Strategy : AuthDataGetter
}.

(** The configuration [NewAuthenticationDataAuthenticatorFromYAML] decodes. *)
Record adConfig : Type := {
  c_Endpoint : Endpoint;
  c_AuthDataSource : AuthenticationDataSource;
  c_Session : Session
}.

(** [yaml.Unmarshal] into that configuration is the YAML library's. *)
Class ConfigDecoder : Type :=
  yaml_Unmarshal_config : string → Result adConfig.

Section Code.
Context {W : Type} `{!Libraries W, !JSONText, !ConfigDecoder}.

Definition NewAuthenticationDataAuthenticatorFromYAML (rawConfig : string)
  : option authenticationDataAuthenticator * option error :=
  match yaml_Unmarshal_config rawConfig with
  | Fail err => (None, Some (ArgumentError "failed to unmarshal config" err))
  | Ok c =>
      (Some {| ada_Endpoint := c_Endpoint c;
               ada_AuthDataGetter := Strategy (c_AuthDataSource c);
               ada_SubjectExtractor := sessionExtractor (c_Session c) |}, None)
  end.

Definition Authenticate (recv : authenticationDataAuthenticator) (ctx : Context)
    (as_ : RequestContext) (sc : SubjectContext)
  : IO (W := W) (SubjectContext * option error) := λ w,
  let '(authDataRef, err) := adg_GetAuthData (ada_AuthDataGetter recv) as_ in
  match err with
  | Some err =>
      ((sc, Some (ArgumentError "failed to extract authentication data" err)), w)
  | None =>
  let '((rawBody, err), w) := SendRequest (ada_Endpoint recv) ctx (Some authDataRef) w in
  match err with
  | Some err => ((sc, Some err), w)
  | None =>
  let '(subject, err) := se_GetSubject (ada_SubjectExtractor recv) rawBody in
  let sc := {| sc_Subject := subject |} in
  match err with
  | Some err => ((sc, Some err), w)
  | None => ((sc, None), w)
  end end end.

Definition WithConfig (recv : authenticationDataAuthenticator) (_ : string)
  : option (Handler.Authenticator W) * option error :=
  (* this authenticator does not allow configuration from a rule *)
  (None, Some (errors_New "reconfiguration not allowed")).

(** The authenticator as a stage of a rule. *)
Definition asAuthenticator (recv : authenticationDataAuthenticator)
  : Handler.Authenticator W :=
  {| Handler.Authenticate := Authenticate recv |}.

End Code.
End AuthenticationData.

(** ** Package mutators *)

Module Mutators.

Inductive headerMutator : Type := mkHeaderMutator.

Section Code.
Context {W : Type}.

Definition NewHeaderMutatorFromJSON (rawConfig : string)
  : headerMutator * option error :=
  (mkHeaderMutator, None).

Definition Mutate (_ : headerMutator) (_ : Context) (sc : SubjectContext)
  : IO (W := W) (SubjectContext * option error) :=
  λ w, ((sc, None), w).

Definition WithConfig (_ : headerMutator) (config : string)
  : option (Handler.Mutator W) * option error :=
  (None, None).

(** The mutator as a stage of a rule. *)
Definition asMutator (recv : headerMutator) : Handler.Mutator W :=
  {| Handler.Mutate := Mutate recv |}.

End Code.
End Mutators.

(** ** Words for the outcomes of the code, used in Part III *)

Module Outcomes.

(** The subject context a rule starts with. *)
Definition subjectContext0 : SubjectContext := {| sc_Subject := None |}.

(** The error of [verifyTokenAndGetClaims] for a key that is not unique. *)
Definition noUniqueKey : error :=
  errors_New "no (unique) key found for the given key id".

Section WithText.
Context `{!JSONText}.

(** What the two locators must find for [GetSubject] to build a subject. *)
Definition identifierFound (raw : string) (id : string) : Prop :=
  (raw = "" ∧ id = "")
  ∨ (json_parse raw = Some JNull ∧ id = "")
  ∨ json_parse raw = Some (JString id).

Definition attributesFound (raw : string) (attributes : gmap string JSON) : Prop :=
  (raw = "" ∧ attributes = ∅)
  ∨ (json_parse raw = Some JNull ∧ attributes = ∅)
  ∨ ∃ members, json_parse raw = Some (JObject members)
               ∧ attributes = foldl (λ acc kv, <[kv.1 := kv.2]> acc) ∅ members.

End WithText.
End Outcomes.

(** ** The pipeline in the words of the specification

    The stages of a rule in their fixed order, each with the call it stands
    for and the message logged when it fails, and a runner that goes through
    a list of stages and stops at the first one that fails. [Execute] is
    compared with it in Part II. *)

Module PipelineSpec.
Import Handler Rules.

Section WithWorld.
Context {W : Type}.

Definition Stage : Type :=
  Call * string * (SubjectContext → IO (W := W) (SubjectContext * option error)).

Definition stageOrder : list Call :=
  [CallAuthenticate; CallAuthorize; CallHydrate; CallMutate].

Definition stages (r : rule W) (ctx : Context) (reqCtx : RequestContext)
  : list Stage :=
  [ (CallAuthenticate, "Authentication failed", Authenticate (an r) ctx reqCtx);
    (CallAuthorize, "Authorization failed", Authorize (az r) ctx reqCtx);
    (CallHydrate, "Hydration failed", Hydrate (h r) ctx);
    (CallMutate, "Mutation failed", Mutate (m r) ctx) ].

(** The calls made, the subject context, the first failure if there is one,
    and the world afterwards. *)
Fixpoint runStages (ss : list Stage) (sc : SubjectContext) (w : W)
  : list Call * SubjectContext * option (string * error) * W :=
  match ss with
  | [] => ([], sc, None, w)
  | (c, msg, run) :: ss' =>
      let '((sc', err), w') := run sc w in
      match err with
      | Some e => ([c], sc', Some (msg, e), w')
      | None =>
          let '(cs, sc'', failure, w'') := runStages ss' sc' w' in
          (c :: cs, sc'', failure, w'')
      end
  end.

End WithWorld.
End PipelineSpec.

(** ** Fixtures: a small concrete world on which the program is run *)

Module Fixtures.
Import Handler Rules.

(** Stages over the world [nat]: each call adds its own weight to the world,
    so that a run shows which stages acted. A stage configured as "deny"
    fails; a factory asked for "broken" cannot build the stage. *)
Definition stageOutcome (cfg : string) (weight : nat) (what : string)
  : SubjectContext → IO (W := nat) (SubjectContext * option error) :=
  λ sc w, if String.eqb cfg "deny"
          then ((sc, Some (errors_New what)), w + weight)
          else ((sc, None), w + weight).

Definition build {A} (what : string) (cfg : string) (stage : A) : Result A :=
  if String.eqb cfg "broken"
  then Fail (ArgumentError what (errors_New "broken configuration"))
  else Ok stage.

Definition factory : HandlerFactory nat string := {|
  CreateAuthenticator cfg :=
    build "authenticator" cfg
      {| Authenticate _ _ := stageOutcome cfg 1 "authentication denied" |};
  CreateAuthorizer cfg :=
    build "authorizer" cfg
      {| Authorize _ _ := stageOutcome cfg 2 "authorization denied" |};
  CreateHydrator cfg :=
    build "hydrator" cfg {| Hydrate _ := stageOutcome cfg 4 "hydration denied" |};
  CreateMutator cfg :=
    build "mutator" cfg {| Mutate _ := stageOutcome cfg 8 "mutation denied" |};
  CreateErrorHandler cfg :=
    build "error handler" cfg
      {| HandleError _ err := λ w, (Some (UnauthorizedError "denied" err), w + 16) |}
|}.

Definition ruleConfig (name authn : string) : RuleConfig string := {|
  ID := name; URL := "/api/" +:+ name; Methods := ["GET"];
  Authenticators := authn; Authorizer_ := "allow"; Hydrators := "none";
  Mutators := "none"; ErrorHandlers := "default"
|}.

(** A decoder that knows three rule set definitions by name. *)
#[export] Instance decoder : RuleSetDecoder string := λ data,
  if String.eqb data "R1,R2" then
    Ok [ruleConfig "R1" "anonymous"; ruleConfig "R2" "anonymous"]
  else if String.eqb data "R3" then
    Ok [ruleConfig "R3" "anonymous"]
  else if String.eqb data "R4,R5!,R6" then
    Ok [ruleConfig "R4" "anonymous"; ruleConfig "R5" "broken";
        ruleConfig "R6" "anonymous"]
  else Fail (LibraryError "yaml" "cannot unmarshal").

Definition emptyRepository : repository nat string :=
  {| hf := factory; rules := []; logger := [] |}.

Definition created (src definition : string) : RuleSetChangedEvent :=
  {| Src := src; Definition_ := definition; ChangeType_ := Create |}.

Definition removed (src : string) : RuleSetChangedEvent :=
  {| Src := src; Definition_ := ""; ChangeType_ := Remove |}.

Definition request : RequestContext :=
  {| Header _ := ""; Cookie _ := ""; Query _ := ""; Form _ := ""; Body := "" |}.

(** A rule with no configured method. *)
Definition anyMethodRule : rule nat :=
  {| id := "R0"; url := "/"; methods := []; srcID := "test";
     an := {| Authenticate _ _ := stageOutcome "ok" 1 "" |};
     az := {| Authorize _ _ := stageOutcome "ok" 2 "" |};
     h := {| Hydrate _ := stageOutcome "ok" 4 "" |};
     m := {| Mutate _ := stageOutcome "ok" 8 "" |};
     eh := {| HandleError _ err := λ w, (Some err, w + 16) |} |}.

(** *** Fixtures of the authenticators *)

Import Authenticators.

Definition q : string := String (ascii_of_nat 34) EmptyString.

(** Three payloads: the object whose member sub is the string alice, the
    object whose member sub is the number 42, and the empty object. *)
Definition claimsAlice : string := "{" +:+ q +:+ "sub" +:+ q +:+ ":" +:+ q +:+ "alice" +:+ q +:+ "}".
Definition claimsNumber : string := "{" +:+ q +:+ "sub" +:+ q +:+ ":42}".
Definition claimsEmpty : string := "{}".

(** JSON text on the three payloads above and the values in them. *)
#[export] Instance jsonText : JSONText := {|
  gjson_GetBytes_Raw data path :=
    if String.eqb path "sub" then
      if String.eqb data claimsAlice then q +:+ "alice" +:+ q
      else if String.eqb data claimsNumber then "42"
      else ""
    else "";
  json_parse text :=
    if String.eqb text "null" then Some JNull
    else if String.eqb text "42" then Some (JNumber 42)
    else if String.eqb text (q +:+ "alice" +:+ q) then Some (JString "alice")
    else if String.eqb text "{}" then Some (JObject [])
    else None;
  json_parse_null := eq_refl;
  json_parse_empty := eq_refl
|}.

Definition session : Session := {| SubjectFrom := "sub"; AttributesFrom := "attrs" |}.

Definition noAssertions : Expectation :=
  {| AllowedAlgorithms := []; Issuer := ""; Audiences := []; Scopes := [];
     ClockSkew := 0 |}.

Definition configFor (address : string) : config :=
  {| conf_Endpoint := {| URL := address; Method := ""; Headers := ∅ |};
     conf_AuthDataSource := None;
     conf_JwtAssertions := noAssertions;
     conf_Session := {| SubjectFrom := ""; AttributesFrom := "" |} |}.

Definition keySet : JSONWebKeySet :=
  {| Keys := [ {| KeyID := "k1"; Algorithm := "ES256"; Key := "ec-public" |};
               {| KeyID := "k2"; Algorithm := "HS256"; Key := "shared" |} ] |}.

Definition header (kid alg : string) : Header :=
  {| Header_KeyID := kid; Header_Algorithm := alg |}.

(** The world counts the requests sent. The key set is served at
    https://idp/jwks; every other address refuses the connection. *)
#[export] Instance libraries : Libraries nat := {|
  Claims := unit;
  yaml_UnmarshalStrict_config raw :=
    if String.eqb raw "jwks_endpoint: {url: https://idp/jwks}"
    then Ok (configFor "https://idp/jwks")
    else if String.eqb raw "jwks_endpoint: {url: https://down/jwks}"
    then Ok (configFor "https://down/jwks")
    else Fail (LibraryError "yaml" "cannot unmarshal");
  yaml_Unmarshal_assertions raw :=
    if String.eqb raw "jwt_assertions: {issuer: corp}"
    then Ok {| AllowedAlgorithms := []; Issuer := "corp"; Audiences := [];
               Scopes := []; ClockSkew := 0 |}
    else Fail (LibraryError "yaml" "cannot unmarshal");
  Expectation_Validate _ := None;
  Endpoint_Validate ep :=
    if String.eqb (URL ep) "" then Some (errors_New "url is required") else None;
  SendRequest ep _ _ := λ w,
    if String.eqb (URL ep) "https://idp/jwks" then (("jwks", None), S w)
    else (("", Some (LibraryError "http" "connection refused")), S w);
  json_Unmarshal_JSONWebKeySet raw :=
    if String.eqb raw "jwks" then Ok keySet else Fail json_SyntaxError;
  jwt_ParseSigned raw :=
    if String.eqb raw "h1.alice.sig"
    then Ok {| token_Headers := [header "k1" "ES256"]; token_payload := "alice" |}
    else if String.eqb raw "h2.alice.sig"
    then Ok {| token_Headers := [header "k2" "HS256"]; token_payload := "alice" |}
    else Fail (LibraryError "jose" "compact JWS format must have three parts");
  token_Claims token _ := Ok ({[ "sub" := JString (token_payload token) ]}, tt);
  Claims_Validate _ _ := None;
  json_Marshal claims :=
    match claims !! "sub" with
    | Some (JString "alice") => Ok claimsAlice
    | _ => Ok claimsEmpty
    end
|}.

Definition bearer (token : string) : RequestContext :=
  requestContextOf {[ "Authorization" := "Bearer " +:+ token ]} ∅ ∅ ∅ "".

Definition noCredentials : RequestContext := requestContextOf ∅ ∅ ∅ ∅ "".

Definition baseAuthenticator : jwtAuthenticator :=
  {| e := {| URL := "https://idp/jwks"; Method := "GET";
             Headers := {[ "Accept-Type" := "application/json" ]} |};
     a := {| AllowedAlgorithms := defaultAllowedAlgorithms; Issuer := "";
             Audiences := []; Scopes := []; ClockSkew := 0 |};
     se := sessionExtractor {| SubjectFrom := "sub"; AttributesFrom := "" |};
     adg := strategyGetter defaultAuthDataSource |}.

Definition downAuthenticator : jwtAuthenticator :=
  {| e := {| URL := "https://down/jwks"; Method := "GET"; Headers := ∅ |};
     a := a baseAuthenticator;
     se := se baseAuthenticator;
     adg := adg baseAuthenticator |}.

End Fixtures.

(** ** More fixtures: stages of the sources in a rule, a key set with a key
    id that is not unique, and an authentication data authenticator *)

Module MoreFixtures.
Import Handler Rules Authenticators Fixtures.

(** The repository after the rule set of sourceA was loaded. *)
Definition loadedA : repository nat string :=
  onRuleSetCreated emptyRepository "sourceA" "R1,R2".

Definition headerMutatorRule : rule nat :=
  {| id := "R8"; url := "/"; methods := ["GET"]; srcID := "test";
     an := an anyMethodRule; az := az anyMethodRule; h := h anyMethodRule;
     m := Mutators.asMutator Mutators.mkHeaderMutator;
     eh := eh anyMethodRule |}.

Definition jwtRule (recv : jwtAuthenticator) : rule nat :=
  {| id := "R9"; url := "/"; methods := ["GET"]; srcID := "test";
     an := asAuthenticator recv;
     az := az anyMethodRule; h := h anyMethodRule; m := m anyMethodRule;
     eh := eh anyMethodRule |}.

Definition twinKeySet : JSONWebKeySet :=
  {| Keys := [ {| KeyID := "k1"; Algorithm := "ES256"; Key := "ec-public" |};
               {| KeyID := "k1"; Algorithm := "ES256"; Key := "ec-other" |} ] |}.

Definition identityInfo : AuthenticationData.authenticationDataAuthenticator :=
  {| AuthenticationData.ada_Endpoint := e baseAuthenticator;
     AuthenticationData.ada_SubjectExtractor := se baseAuthenticator;
     AuthenticationData.ada_AuthDataGetter := adg baseAuthenticator |}.

(** The no-break space U+00A0 and the em space U+2003, in UTF-8. *)
Definition nbsp : string :=
  String (ascii_of_nat 194) (String (ascii_of_nat 160) EmptyString).

Definition emSpace : string :=
  String (ascii_of_nat 226)
    (String (ascii_of_nat 128) (String (ascii_of_nat 131) EmptyString)).

(** A session whose attributes path leads to the member sub. *)
Definition attributesAtSub : Session :=
  {| SubjectFrom := "id"; AttributesFrom := "sub" |}.

(** A configuration that names its own assertions, and libraries that
    decode it (and are the libraries of the fixtures otherwise). *)
Definition configuredAssertions : Expectation :=
  {| AllowedAlgorithms := ["RS256"; "HS256"]; Issuer := "corp";
     Audiences := ["api"]; Scopes := ["read"]; ClockSkew := 5 |}.

Definition configured : config :=
  {| conf_Endpoint := {| URL := "https://idp/jwks"; Method := "POST";
                         Headers := {[ "X-Tenant" := "corp" ]} |};
     conf_AuthDataSource := None;
     conf_JwtAssertions := configuredAssertions;
     conf_Session := {| SubjectFrom := "user"; AttributesFrom := "" |} |}.

Definition configuredYAML : string :=
  "jwks_endpoint: {url: https://idp/jwks, method: POST}, jwt_assertions: {issuer: corp}".

Definition configuredLibraries : Libraries nat := {|
  Claims := unit;
  yaml_UnmarshalStrict_config raw :=
    if String.eqb raw configuredYAML then Ok configured
    else yaml_UnmarshalStrict_config (Libraries := libraries) raw;
  yaml_Unmarshal_assertions := yaml_Unmarshal_assertions (Libraries := libraries);
  Expectation_Validate := Expectation_Validate (Libraries := libraries);
  Endpoint_Validate := Endpoint_Validate (Libraries := libraries);
  SendRequest := SendRequest (Libraries := libraries);
  json_Unmarshal_JSONWebKeySet := json_Unmarshal_JSONWebKeySet (Libraries := libraries);
  jwt_ParseSigned := jwt_ParseSigned (Libraries := libraries);
  token_Claims := token_Claims (Libraries := libraries);
  Claims_Validate := Claims_Validate (Libraries := libraries);
  json_Marshal := json_Marshal (Libraries := libraries)
|}.

(** An authenticator whose subject extractor fails on the claims of alice
    (its attributes path leads to a string), and a subject context that
    already holds a subject. *)
Definition failingExtractor : jwtAuthenticator :=
  {| e := e baseAuthenticator; a := a baseAuthenticator;
     se := sessionExtractor {| SubjectFrom := "id"; AttributesFrom := "sub" |};
     adg := adg baseAuthenticator |}.

Definition subjectContextOld : SubjectContext :=
  {| sc_Subject := Some {| Id := "old"; Attributes := ∅ |} |}.

Definition issuerCorp : Expectation :=
  {| AllowedAlgorithms := []; Issuer := "corp"; Audiences := []; Scopes := [];
     ClockSkew := 0 |}.

End MoreFixtures.

(* ===================================================================== *)
(** * Part II: the properties                                             *)
(* ===================================================================== *)

(** ** Rule repository *)

Section RepositoryProperties.
Import Rules.
Context {W Cfg : Type} `{!RuleSetDecoder Cfg}.
Implicit Types (r : repository W Cfg) (rc : RuleConfig Cfg).

Lemma newRule_log r e srcID rc : newRule (log r e) srcID rc = newRule r srcID rc.
Proof. reflexivity. Qed.

Lemma rules_foldl_addRule r (rs : list (rule W)) :
  rules (foldl addRule r rs) = rules r ++ rs.
Proof.
  revert r. induction rs as [|x rs IH]; intros r; simpl.
  - by rewrite app_nil_r.
  - rewrite IH. simpl. by rewrite <- app_assoc.
Qed.

Lemma loadRules_log r e srcID definition :
  loadRules (log r e) srcID definition = loadRules r srcID definition.
Proof.
  unfold loadRules. destruct (parseRuleSetFromYaml definition) as [rcs|]; [|done].
  generalize (@nil (rule W)) as filled.
  induction rcs as [|rc rcs IH]; intros filled; simpl; [done|].
  rewrite newRule_log. destruct (newRule r srcID rc); [apply IH|done].
Qed.

(** A rule set in which one configuration cannot be built loads as nil,
    whatever was filled in before the failure. *)
Lemma loadRules_range_fails r srcID (rcs : list (RuleConfig Cfg)) filled rc err :
  rc ∈ rcs → newRule r srcID rc = Fail err →
  ∃ err', loadRules_range r srcID rcs filled = ([], Some err').
Proof.
  intros Hin Hrc. revert filled.
  induction rcs as [|rc' rcs IH]; intros filled.
  - by apply elem_of_nil in Hin.
  - simpl. destruct (newRule r srcID rc') as [rl|e] eqn:Hrc'; [|by eauto].
    apply elem_of_cons in Hin as [->|Hin]; [congruence|]. by apply IH.
Qed.

(** When every configuration can be built, the slice holds one rule per
    configuration, in the order of the definition. *)
Lemma loadRules_range_ok r srcID (rcs : list (RuleConfig Cfg)) filled rs :
  loadRules_range r srcID rcs filled = (rs, None) →
  ∃ built, rs = filled ++ built
           ∧ Forall2 (λ rc rl, newRule r srcID rc = Ok rl) rcs built.
Proof.
  revert filled. induction rcs as [|rc rcs IH]; intros filled; simpl.
  - intros [= <-]. exists []. by rewrite app_nil_r.
  - destruct (newRule r srcID rc) as [rl|e] eqn:Hrc; [|done].
    intros (built & -> & Hall)%IH. exists (rl :: built).
    split; [by rewrite <- app_assoc|by constructor].
Qed.

(** A rule set that loads is appended to the collection: one rule per
    configuration, in the order of the definition, after the rules that
    were there. *)
Lemma onRuleSetCreated_ok r srcID definition rcs :
  parseRuleSetFromYaml definition = Ok rcs →
  (∀ rc, rc ∈ rcs → ∃ rl, newRule r srcID rc = Ok rl) →
  ∃ built, rules (onRuleSetCreated r srcID definition) = rules r ++ built
           ∧ Forall2 (λ rc rl, newRule r srcID rc = Ok rl) rcs built.
Proof.
  intros Hparse Hall. unfold onRuleSetCreated. rewrite loadRules_log.
  unfold loadRules. rewrite Hparse.
  destruct (loadRules_range r srcID rcs []) as [rs [err|]] eqn:Hload.
  - exfalso. clear Hparse. revert Hload. generalize (@nil (rule W)).
    induction rcs as [|rc rcs IH]; intros filled; simpl; [done|].
    destruct (Hall rc) as [rl ->]; [by left|].
    apply IH. intros rc' Hin. apply Hall. by right.
  - destruct (loadRules_range_ok _ _ _ _ _ Hload) as (built & -> & Hbuilt).
    exists built. by rewrite rules_foldl_addRule.
Qed.

(** A Remove event leaves the collection as it is. *)
Lemma onRuleSetDeleted_rules r src : rules (onRuleSetDeleted r src) = rules r.
Proof. reflexivity. Qed.

(** C3. A Create event whose rule set definition does not parse, or in which
    one rule configuration cannot be built, leaves the rule collection of the
    repository as it was: no rule of the batch is added, also not those built
    before the failing one. The failure is written to the logger. *)
Theorem C3_failed_batch_adds_no_rule r srcID definition :
  (∃ err, parseRuleSetFromYaml definition = Fail err)
  ∨ (∃ rcs rc err, parseRuleSetFromYaml definition = Ok rcs
                   ∧ rc ∈ rcs ∧ newRule r srcID rc = Fail err) →
  rules (onRuleSetCreated r srcID definition) = rules r
  ∧ ∃ err, snd (loadRules r srcID definition) = Some err
           ∧ last (logger (onRuleSetCreated r srcID definition))
             = Some {| log_level := ErrorLevel; log_err := Some err;
                       log_fields := [("src", srcID)];
                       log_msg := "Failed loading rule set" |}.
Proof.
  intros Hfail.
  assert (∃ err, loadRules r srcID definition = ([], Some err)) as [err Hload].
  { unfold loadRules.
    destruct Hfail as [[err ->]|(rcs & rc & err & -> & Hin & Hrc)]; [by eauto|].
    by apply (loadRules_range_fails r srcID rcs [] rc err). }
  unfold onRuleSetCreated. rewrite loadRules_log, Hload.
  simpl. split; [done|]. exists err. split; [done|]. by rewrite last_snoc.
Qed.

(** C6, as the code has it. [MatchesMethod] is membership in the method list
    of the rule and nothing else: it answers true exactly for the methods of
    the list, so a rule with an empty list matches no method. *)
Theorem C6_MatchesMethod_is_membership (rl : rule W) (method : string) :
  (MatchesMethod rl method = true ↔ method ∈ methods rl)
  ∧ (methods rl = [] → MatchesMethod rl method = false).
Proof.
  unfold MatchesMethod. split.
  - induction (methods rl) as [|x l IH]; simpl.
    + split; [done|by intros ?%elem_of_nil].
    + destruct (String.eqb_spec x method) as [->|Hne].
      * split; [intros _; by left|done].
      * rewrite IH. split; [by right|].
        intros [?|?]%elem_of_cons; [congruence|done].
  - by intros ->.
Qed.

End RepositoryProperties.

(** ** Strings *)

Section StringProperties.
Import Strings.

Lemma append_empty s : "" +:+ s = s.
Proof. reflexivity. Qed.

Lemma append_String c s t : String c s +:+ t = String c (s +:+ t).
Proof. reflexivity. Qed.

Ltac push_append := rewrite ?append_empty, ?append_String in *.

Lemma HasPrefix_app p rest : HasPrefix (p +:+ rest) p = true.
Proof.
  induction p as [|c p IH]; push_append; simpl; [done|].
  by rewrite Ascii.eqb_refl.
Qed.

Lemma HasPrefix_inv s p : HasPrefix s p = true → ∃ rest, s = p +:+ rest.
Proof.
  revert s. induction p as [|c p IH]; intros s; simpl.
  - intros _. by exists s.
  - destruct s as [|d s]; [done|].
    destruct (Ascii.eqb_spec c d) as [->|]; [|done].
    intros [rest ->]%IH. by exists rest.
Qed.

Lemma drop_app p rest : drop (String.length p) (p +:+ rest) = rest.
Proof. induction p as [|c p IH]; push_append; simpl; [by destruct rest|done]. Qed.

Lemma TrimPrefix_app p rest : TrimPrefix (p +:+ rest) p = rest.
Proof. unfold TrimPrefix. by rewrite HasPrefix_app, drop_app. Qed.

Lemma append_empty_r s : s +:+ "" = s.
Proof. induction s as [|c s IH]; push_append; [done|by rewrite IH]. Qed.

Lemma append_assoc a b c : (a +:+ b) +:+ c = a +:+ (b +:+ c).
Proof. induction a as [|x a IH]; push_append; [done|by rewrite IH]. Qed.

Lemma length_append a b : String.length (a +:+ b) = String.length a + String.length b.
Proof. induction a as [|x a IH]; push_append; simpl; [done|by rewrite IH]. Qed.

Lemma take_drop n s : take n s +:+ drop n s = s.
Proof.
  revert s. induction n as [|n IH]; intros [|c s]; simpl; push_append; try done.
  by rewrite IH.
Qed.

Lemma take_app p rest : take (String.length p) (p +:+ rest) = p.
Proof.
  induction p as [|c p IH]; push_append; simpl; [by destruct rest|by rewrite IH].
Qed.

Lemma HasPrefix_append_l a b w : HasPrefix a w = true → HasPrefix (a +:+ b) w = true.
Proof. intros [rest ->]%HasPrefix_inv. rewrite append_assoc. apply HasPrefix_app. Qed.

(** Two prefixes of one string: one of them is a prefix of the other. *)
Lemma HasPrefix_comparable s a b :
  HasPrefix s a = true → HasPrefix s b = true →
  HasPrefix a b = true ∨ HasPrefix b a = true.
Proof.
  revert s b. induction a as [|x a IH]; intros s b; simpl.
  - intros _ _. right. by destruct b.
  - destruct s as [|y s]; [done|].
    destruct (Ascii.eqb_spec x y) as [->|]; [|done]. intros Ha.
    destruct b as [|z b]; simpl; [by left|].
    destruct (Ascii.eqb_spec z y) as [->|]; [|done]. intros Hb.
    rewrite Ascii.eqb_refl. by apply (IH s).
Qed.

Lemma HasSuffix_inv s w :
  HasSuffix s w = true →
  s = take (String.length s - String.length w) s +:+ w
  ∧ (String.length w ≤ String.length s)%nat.
Proof.
  unfold HasSuffix. intros [Hlen Heq]%andb_true_iff.
  apply Nat.leb_le in Hlen. apply String.eqb_eq in Heq. split; [|done].
  pose proof (take_drop (String.length s - String.length w) s) as Htd.
  rewrite Heq in Htd. by rewrite Htd.
Qed.

Lemma HasSuffix_app p w : HasSuffix (p +:+ w) w = true.
Proof.
  unfold HasSuffix. rewrite length_append. apply andb_true_iff. split.
  - apply Nat.leb_le. lia.
  - replace (String.length p + String.length w - String.length w)
      with (String.length p) by lia.
    rewrite drop_app. apply String.eqb_refl.
Qed.

(** The white space encodings: none is empty, and none is the start of
    another one. *)
Lemma IsSpace_whiteSpace r : IsSpace r = true ↔ In r whiteSpace.
Proof.
  unfold IsSpace. rewrite existsb_exists. split.
  - by intros (x & Hin & ->%N.eqb_eq).
  - intros Hin. exists r. by rewrite N.eqb_refl.
Qed.

Lemma spaces_encode w : In w spaces ↔ ∃ r, IsSpace r = true ∧ w = EncodeRune r.
Proof.
  unfold spaces. rewrite in_map_iff. split.
  - intros (r & <- & Hin). exists r. by rewrite IsSpace_whiteSpace.
  - intros (r & Hr & ->). exists r. by rewrite <- IsSpace_whiteSpace.
Qed.

Lemma spaces_not_empty w : In w spaces → (1 ≤ String.length w)%nat.
Proof.
  assert (forallb (λ w, 1 <=? String.length w)%nat spaces = true) as Hall
    by (vm_compute; reflexivity).
  intros Hin. rewrite forallb_forall in Hall. apply Nat.leb_le. by apply Hall.
Qed.

Lemma spaces_prefix_free a b :
  In a spaces → In b spaces → HasPrefix a b = true → a = b.
Proof.
  assert (forallb (λ a, forallb (λ b, implb (HasPrefix a b) (String.eqb a b)) spaces)
            spaces = true) as Hall by (vm_compute; reflexivity).
  intros Ha Hb Hpre. rewrite forallb_forall in Hall.
  specialize (Hall a Ha). rewrite forallb_forall in Hall. specialize (Hall b Hb).
  rewrite Hpre in Hall. by apply String.eqb_eq.
Qed.

Lemma leadingSpace_Some s w :
  leadingSpace s = Some w → In w spaces ∧ s = w +:+ drop (String.length w) s.
Proof.
  intros [Hin Hpre]%find_some. split; [done|].
  apply HasPrefix_inv in Hpre as [rest ->]. by rewrite drop_app.
Qed.

Lemma leadingSpace_None s w : leadingSpace s = None → In w spaces → HasPrefix s w = false.
Proof. intros Hnone Hin. by apply (find_none _ _ Hnone). Qed.

Lemma trailingSpace_Some s w :
  trailingSpace s = Some w →
  In w spaces ∧ s = take (String.length s - String.length w) s +:+ w.
Proof. intros [Hin [Hs _]%HasSuffix_inv]%find_some. done. Qed.

Lemma join_app (l1 l2 : list string) : join (l1 ++ l2) = join l1 +:+ join l2.
Proof.
  induction l1 as [|x l1 IH]; simpl; [done|].
  by rewrite IH, append_assoc.
Qed.

Lemma trimLeft_spec turns s :
  (String.length s ≤ turns)%nat →
  ∃ runes, Forall (λ r, IsSpace r = true) runes
           ∧ s = join (map EncodeRune runes) +:+ trimLeft turns s
           ∧ leadingSpace (trimLeft turns s) = None.
Proof.
  revert s. induction turns as [|turns IH]; intros s Hlen; simpl.
  - destruct s; [|simpl in Hlen; lia]. exists []. done.
  - destruct (leadingSpace s) as [w|] eqn:Hw; [|by exists []].
    destruct (leadingSpace_Some s w Hw) as [Hin Hs].
    pose proof (spaces_not_empty w Hin) as Hpos.
    apply spaces_encode in Hin as (r & Hr & ->).
    destruct (IH (drop (String.length (EncodeRune r)) s)) as (runes & Hrunes & Hrest & Hnone).
    { rewrite Hs, length_append in Hlen. lia. }
    exists (r :: runes). split; [by constructor|]. split; [|done].
    simpl. rewrite append_assoc, <- Hrest. exact Hs.
Qed.

Lemma trimRight_spec turns s :
  (String.length s ≤ turns)%nat →
  ∃ runes, Forall (λ r, IsSpace r = true) runes
           ∧ s = trimRight turns s +:+ join (map EncodeRune runes)
           ∧ trailingSpace (trimRight turns s) = None.
Proof.
  revert s. induction turns as [|turns IH]; intros s Hlen; simpl.
  - destruct s; [|simpl in Hlen; lia]. exists []. done.
  - destruct (trailingSpace s) as [w|] eqn:Hw.
    2:{ exists []. simpl. by rewrite append_empty_r. }
    destruct (trailingSpace_Some s w Hw) as [Hin Hs].
    pose proof (spaces_not_empty w Hin) as Hpos.
    apply spaces_encode in Hin as (r & Hr & ->).
    set (s' := take (String.length s - String.length (EncodeRune r)) s) in *.
    destruct (IH s') as (runes & Hrunes & Hrest & Hnone).
    { rewrite Hs, length_append in Hlen. lia. }
    exists (runes ++ [r]). split; [by apply Forall_app; split; [|constructor]|].
    split; [|done].
    rewrite map_app, join_app. simpl. rewrite append_empty_r, <- append_assoc, <- Hrest.
    exact Hs.
Qed.

(** Trimming takes white space runes, and nothing else, off both ends, and
    leaves a string that neither starts nor ends with a white space rune. *)
Lemma TrimSpace_spec s :
  ∃ l r, s = l +:+ TrimSpace s +:+ r
         ∧ allSpace l ∧ allSpace r
         ∧ startsWithSpace (TrimSpace s) = false
         ∧ endsWithSpace (TrimSpace s) = false.
Proof.
  unfold TrimSpace, TrimRightSpace, TrimLeftSpace.
  destruct (trimLeft_spec (String.length s) s) as (ls & Hls & Hs & Hlead); [done|].
  set (t := trimLeft (String.length s) s) in *.
  destruct (trimRight_spec (String.length t) t) as (rs & Hrs & Ht & Htrail); [done|].
  set (u := trimRight (String.length t) t) in *.
  exists (join (map EncodeRune ls)), (join (map EncodeRune rs)).
  split; [by rewrite <- Ht|]. split; [by exists ls|]. split; [by exists rs|].
  unfold startsWithSpace, endsWithSpace. rewrite Htrail. split; [|done].
  destruct (leadingSpace u) as [w|] eqn:Hw; [|done].
  apply find_some in Hw as [Hin Hpre].
  apply (HasPrefix_append_l _ (join (map EncodeRune rs))) in Hpre.
  rewrite <- Ht in Hpre. by rewrite (leadingSpace_None t w Hlead Hin) in Hpre.
Qed.

Lemma trimLeft_allSpace runes turns :
  Forall (λ r, IsSpace r = true) runes →
  (String.length (join (map EncodeRune runes)) ≤ turns)%nat →
  trimLeft turns (join (map EncodeRune runes)) = "".
Proof.
  intros Hrunes. revert turns.
  induction Hrunes as [|r runes Hr Hrunes IH]; intros turns Hlen; simpl in *.
  - by destruct turns.
  - assert (Hin : In (EncodeRune r) spaces) by (apply spaces_encode; eauto).
    pose proof (spaces_not_empty _ Hin) as Hpos.
    rewrite length_append in Hlen.
    destruct turns as [|turns]; [lia|]. simpl.
    set (rest := join (map EncodeRune runes)) in *.
    destruct (leadingSpace (EncodeRune r +:+ rest)) as [w|] eqn:Hw.
    + apply find_some in Hw as [Hw Hpre].
      assert (w = EncodeRune r) as ->.
      { destruct (HasPrefix_comparable _ _ _ Hpre (HasPrefix_app (EncodeRune r) rest));
          [|symmetry]; by apply spaces_prefix_free. }
      rewrite drop_app. apply IH. lia.
    + pose proof (leadingSpace_None _ _ Hw Hin) as Hf. by rewrite HasPrefix_app in Hf.
Qed.

(** Trimming leaves nothing exactly of a string of white space runes. *)
Lemma TrimSpace_empty s : TrimSpace s = "" ↔ allSpace s.
Proof.
  split.
  - intros Hempty.
    destruct (TrimSpace_spec s) as (l & r & Hs & (ls & Hls & ->) & (rs & Hrs & ->) & _).
    rewrite Hempty in Hs. push_append.
    exists (ls ++ rs). split; [by apply Forall_app|]. by rewrite map_app, join_app.
  - intros (runes & Hrunes & ->). unfold TrimSpace, TrimLeftSpace.
    by rewrite trimLeft_allSpace.
Qed.

End StringProperties.

(** ** Auth data extraction *)

Section ExtractorProperties.
Import Strings Extractors.

Lemma length_0_empty (s : string) : (String.length s =? 0)%nat = true ↔ s = "".
Proof. destruct s; simpl; split; done. Qed.

(** What [GetAuthData] answers depends on the value of the parameter only. *)
Lemma GetAuthData_cases (es : QueryParameterExtractStrategy) (s : RequestContext) :
  GetAuthData es s
  = if decide (Query s (Name es) = "") then noQueryParameter es
    else (TrimSpace (TrimPrefix (Query s (Name es)) (Prefix es)), None).
Proof.
  unfold GetAuthData, noQueryParameter. case_decide as Hval.
  - by rewrite Hval.
  - destruct (String.length _ =? 0)%nat eqn:Hlen; [|done].
    by apply length_0_empty in Hlen.
Qed.

(** C10. For the query parameter strategy a parameter that is present with
    an empty value is the same as a parameter that is absent: both give the
    auth-data-missing error. The strategy succeeds exactly when the value is
    not empty, and then returns the value with the configured prefix taken
    off its front and white space trimmed from both ends: the result neither
    starts nor ends with a white space rune, and what was taken off around
    it is white space runes only. White space is that of Unicode, as
    [strings.TrimSpace] has it. *)
Theorem C10_query_parameter_empty_is_absent (es : QueryParameterExtractStrategy)
    (headers cookies query form : gmap string string) (body : string) :
  let s := requestContextOf headers cookies query form body in
  (query !! Name es = None → GetAuthData es s = noQueryParameter es)
  ∧ (query !! Name es = Some "" → GetAuthData es s = noQueryParameter es)
  ∧ (∀ val, query !! Name es = Some val → val ≠ "" →
       GetAuthData es s = (TrimSpace (TrimPrefix val (Prefix es)), None)
       ∧ (∀ rest, val = Prefix es +:+ rest → fst (GetAuthData es s) = TrimSpace rest)
       ∧ startsWithSpace (fst (GetAuthData es s)) = false
       ∧ endsWithSpace (fst (GetAuthData es s)) = false
       ∧ ∃ l r, allSpace l ∧ allSpace r
                ∧ TrimPrefix val (Prefix es) = l +:+ fst (GetAuthData es s) +:+ r)
  ∧ (snd (GetAuthData es s) = None ↔ ∃ val, query !! Name es = Some val ∧ val ≠ "").
Proof.
  intros s. rewrite GetAuthData_cases. subst s. simpl.
  destruct (query !! Name es) as [val|] eqn:Hq; simpl.
  - case_decide as Hval.
    + subst val. split; [done|]. split; [done|]. split.
      * by intros v [= <-] ?.
      * split; [done|]. by intros (v & [= <-] & ?).
    + split; [done|]. split; [by intros [=]|]. split.
      * intros ? [= <-] _. split; [done|]. simpl. split.
        { intros rest ->. by rewrite TrimPrefix_app. }
        destruct (TrimSpace_spec (TrimPrefix val (Prefix es)))
          as (l & r & Hlr & Hl & Hr & Hstart & Hend).
        split; [done|]. split; [done|]. by exists l, r.
      * split; [by eauto|done].
  - split; [done|]. split; [done|]. split; [done|].
    split; [done|]. by intros (v & [=] & _).
Qed.

(** C10 on requests: the value [Bearer  abc  ] with the prefix [Bearer], the
    same with a no-break space (U+00A0) on both sides of the token, and an
    empty value against an absent one. *)
Lemma C10_query_parameter_empty_is_absent_witness :
  GetAuthData {| Name := "access_token"; Prefix := "Bearer" |}
    (requestContextOf ∅ ∅ {[ "access_token" := "Bearer  abc  " ]} ∅ "")
  = ("abc", None)
  ∧ GetAuthData {| Name := "access_token"; Prefix := "Bearer" |}
      (requestContextOf ∅ ∅
         {[ "access_token" := "Bearer" +:+ MoreFixtures.nbsp +:+ "abc" +:+ MoreFixtures.nbsp ]}
         ∅ "")
    = ("abc", None)
  ∧ GetAuthData {| Name := "access_token"; Prefix := "Bearer" |}
      (requestContextOf ∅ ∅ {[ "access_token" := "" ]} ∅ "")
    = GetAuthData {| Name := "access_token"; Prefix := "Bearer" |}
        (requestContextOf ∅ ∅ ∅ ∅ "").
Proof.
  split; [|split].
  - destruct (C10_query_parameter_empty_is_absent
                {| Name := "access_token"; Prefix := "Bearer" |}
                ∅ ∅ {[ "access_token" := "Bearer  abc  " ]} ∅ "")
      as (_ & _ & Hval & _).
    destruct (Hval "Bearer  abc  ") as [-> _]; [reflexivity|discriminate|reflexivity].
  - destruct (C10_query_parameter_empty_is_absent
                {| Name := "access_token"; Prefix := "Bearer" |}
                ∅ ∅
                {[ "access_token" := "Bearer" +:+ MoreFixtures.nbsp +:+ "abc" +:+ MoreFixtures.nbsp ]}
                ∅ "")
      as (_ & _ & Hval & _).
    destruct (Hval ("Bearer" +:+ MoreFixtures.nbsp +:+ "abc" +:+ MoreFixtures.nbsp))
      as [-> _]; [reflexivity|discriminate|reflexivity].
  - destruct (C10_query_parameter_empty_is_absent
                {| Name := "access_token"; Prefix := "Bearer" |}
                ∅ ∅ {[ "access_token" := "" ]} ∅ "")
      as (_ & -> & _); [reflexivity|].
    destruct (C10_query_parameter_empty_is_absent
                {| Name := "access_token"; Prefix := "Bearer" |}
                ∅ ∅ ∅ ∅ "")
      as (-> & _); [reflexivity|]. reflexivity.
Defined.

End ExtractorProperties.

(** ** Subject extraction *)

Section SessionProperties.
Import Authenticators.
Context `{!JSONText}.

Lemma Coalesce_null (raw : string) :
  Stringsx.Coalesce [raw; "null"] = if decide (raw = "") then "null" else raw.
Proof. destruct raw; reflexivity. Qed.

(** C5, as the code has it. The text found at the identifier path is
    coalesced with [null] before it is decoded, and decoding JSON null into a
    string stores nothing. So a decoding error is returned when the path
    resolves to a value that is neither a string nor null, or to text that is
    not JSON; when the path is missing or resolves to null the identifier
    stays empty and no error is raised for it: the result is then decided by
    the attributes alone. *)
Theorem C5_GetSubject_identifier_decoding (s : Session) (rawData : string) :
  let raw := gjson_GetBytes_Raw rawData (SubjectFrom s) in
  let rawAttributes :=
    Stringsx.Coalesce [gjson_GetBytes_Raw rawData (AttributesFrom s); "null"] in
  (∀ v, raw ≠ "" → json_parse raw = Some v →
        v ≠ JNull → (∀ id, v ≠ JString id) →
        GetSubject s rawData
        = (None, Some (subjectFromError
                         (json_UnmarshalTypeError (Json.kind v) "string"))))
  ∧ (raw ≠ "" → json_parse raw = None →
     GetSubject s rawData = (None, Some (subjectFromError json_SyntaxError)))
  ∧ (raw = "" ∨ json_parse raw = Some JNull →
     GetSubject s rawData
     = match Json.Unmarshal_map rawAttributes ∅ with
       | Fail err => (None, Some (attributesFromError err))
       | Ok attributes => (Some {| Id := ""; Attributes := attributes |}, None)
       end).
Proof.
  intros raw rawAttributes. unfold GetSubject. fold raw. fold rawAttributes.
  rewrite Coalesce_null. unfold Json.Unmarshal_string, subjectFromError.
  split; [|split].
  - intros v Hraw Hparse Hnull Hstr. rewrite decide_False, Hparse by done.
    destruct v; try done. by destruct (Hstr s0).
  - intros Hraw Hparse. by rewrite decide_False, Hparse.
  - intros [Hraw|Hparse].
    + rewrite decide_True, json_parse_null by done. done.
    + case_decide; [by rewrite json_parse_null|by rewrite Hparse].
Qed.

End SessionProperties.

(** ** JWT authenticator *)

Section JwtProperties.
Import Authenticators.
Context {W : Type} `{!Libraries W, !JSONText}.

Lemma Contains_elem_of (l : list string) (v : string) :
  Slices.Contains l v = true ↔ v ∈ l.
Proof.
  induction l as [|x l IH]; simpl.
  - split; [done|by intros ?%elem_of_nil].
  - destruct (String.eqb_spec x v) as [->|Hne].
    + split; [intros _; by left|done].
    + rewrite IH. split; [by right|].
      intros [?|?]%elem_of_cons; [congruence|done].
Qed.

(** C4, as the code has it. [Authenticate] first sends the request for the
    key set and decodes the answer, and only then asks the extraction
    strategy for the token. A failing request ends [Authenticate] with the
    transport error, and an answer that is no key set with the decoding
    error, whatever the request carries. When the key set was fetched and
    decoded and no credential is found, [Authenticate] fails with the
    argument error [no jwt present] around the error of the strategy. *)
Theorem C4_Authenticate_fetches_key_set_first (recv : jwtAuthenticator)
    (ctx : Context) (as_ : RequestContext) (sc : SubjectContext) (w w' : W)
    (rawBody : string) :
  (∀ err, SendRequest (e recv) ctx None w = ((rawBody, Some err), w') →
          Authenticate recv ctx as_ sc w = ((sc, Some err), w'))
  ∧ (∀ err, SendRequest (e recv) ctx None w = ((rawBody, None), w') →
            json_Unmarshal_JSONWebKeySet rawBody = Fail err →
            Authenticate recv ctx as_ sc w = ((sc, Some err), w'))
  ∧ (∀ jwks cause, SendRequest (e recv) ctx None w = ((rawBody, None), w') →
                   json_Unmarshal_JSONWebKeySet rawBody = Ok jwks →
                   snd (adg_GetAuthData (adg recv) as_) = Some cause →
                   Authenticate recv ctx as_ sc w
                   = ((sc, Some (ArgumentError "no jwt present" cause)), w')).
Proof.
  unfold Authenticate. split; [|split].
  - by intros err ->.
  - by intros err -> ->.
  - intros jwks cause -> ->.
    destruct (adg_GetAuthData (adg recv) as_) as [jwtRaw err]. by intros [= ->].
Qed.

(** C7. When the configuration names no allowed algorithm the authenticator
    that [NewJwtAuthenticatorFromYAML] returns carries the fixed default
    allow-list, and it is returned whenever the assertions and the endpoint
    validate. The default list is not empty and holds algorithms with a key
    pair only: none of them is an HS algorithm or [none]. And
    [verifyTokenAndGetClaims] fails with the algorithm-not-allowed error when
    the algorithm of the key it located is not in the allow-list. *)
Theorem C7_default_allow_list_and_its_check :
  (∀ rawConfig conf,
     yaml_UnmarshalStrict_config rawConfig = Ok conf →
     AllowedAlgorithms (conf_JwtAssertions conf) = [] →
     (∀ recv, NewJwtAuthenticatorFromYAML rawConfig = (Some recv, None) →
              AllowedAlgorithms (a recv) = defaultAllowedAlgorithms)
     ∧ (Expectation_Validate (conf_JwtAssertions conf) = None →
        (∀ ep, URL ep = URL (conf_Endpoint conf) → Endpoint_Validate ep = None) →
        ∃ recv, NewJwtAuthenticatorFromYAML rawConfig = (Some recv, None)))
  ∧ (defaultAllowedAlgorithms ≠ []
     ∧ Forall (λ alg, alg ∈ asymmetricAlgorithms
                      ∧ Strings.HasPrefix alg "HS" = false
                      ∧ alg ≠ "none") defaultAllowedAlgorithms)
  ∧ (∀ recv jwtRaw jwks token key,
       Strings.Count jwtRaw "." = 2 →
       jwt_ParseSigned jwtRaw = Ok token →
       lookupKeys jwks (token_Headers token) [] = [key] →
       Algorithm key ∉ AllowedAlgorithms (a recv) →
       verifyTokenAndGetClaims recv jwtRaw jwks
       = Fail (fmt_Errorf (Algorithm key +:+ " algorithm is not allowed"))).
Proof.
  split; [|split].
  - intros rawConfig conf Hconf Hnone. unfold NewJwtAuthenticatorFromYAML.
    rewrite Hconf, Hnone. simpl. split.
    + intros recv.
      destruct (Expectation_Validate _); [done|].
      destruct (Endpoint_Validate _); [done|]. by intros [= <-].
    + intros -> Hep. rewrite Hep by done. by eexists.
  - split; [done|].
    unfold defaultAllowedAlgorithms, asymmetricAlgorithms, ES256, ES384, ES512,
      PS256, PS384, PS512.
    repeat constructor; try done; set_solver.
  - intros recv jwtRaw jwks token key Hcount Htoken Hkeys Halg.
    unfold verifyTokenAndGetClaims. rewrite Hcount, Htoken, Hkeys. simpl.
    unfold IsAlgorithmAllowed.
    destruct (Slices.Contains _ _) eqn:Hc; [|done].
    by apply Contains_elem_of in Hc.
Qed.

(** C8. An override that is not empty and decodes gives a new authenticator
    at a location that was free: it has the endpoint, the auth data getter
    and the subject extractor of the base and the decoded assertions. The
    store is otherwise as before, so the base keeps its assertions, its
    endpoint and its extractors. When the override does not decode, the
    call returns the error and the store is unchanged. *)
Theorem C8_WithConfig_replaces_assertions_only (σ : store) (this : positive)
    (base : jwtAuthenticator) (config : string) :
  σ !! this = Some base →
  config ≠ "" →
  (∀ assertions, yaml_Unmarshal_assertions config = Ok assertions →
     ∃ new σ',
       WithConfig this config σ = Some ((Some new, None), σ')
       ∧ new ≠ this ∧ σ !! new = None
       ∧ σ' !! new = Some {| e := e base; a := assertions;
                             se := se base; adg := adg base |}
       ∧ σ' !! this = Some base
       ∧ ∀ other, other ≠ new → σ' !! other = σ !! other)
  ∧ (∀ err, yaml_Unmarshal_assertions config = Fail err →
            WithConfig this config σ = Some ((None, Some err), σ)).
Proof.
  intros Hthis Hconfig. unfold WithConfig.
  assert ((String.length config =? 0)%nat = false) as ->.
  { destruct config; [done|reflexivity]. }
  split.
  - intros assertions ->. rewrite Hthis. simpl.
    set (new := fresh (dom σ)).
    assert (Hnew : σ !! new = None).
    { apply not_elem_of_dom. apply is_fresh. }
    exists new, (<[new := {| e := e base; a := assertions;
                             se := se base; adg := adg base |}]> σ).
    split; [done|]. split; [congruence|]. split; [done|].
    split; [by rewrite lookup_insert_eq|].
    split; [rewrite lookup_insert_ne; [done|congruence]|].
    intros other Hother. by rewrite lookup_insert_ne.
  - by intros err ->.
Qed.

(** C9. With an empty configuration [WithConfig] returns the pointer it was
    called on and a nil error, and the store is unchanged: the authenticator
    keeps its assertions, its endpoint and its extractors. *)
Theorem C9_WithConfig_empty_is_identity (σ : store) (this : positive)
    (config : string) :
  String.length config = 0 →
  WithConfig this config σ = Some ((Some this, None), σ).
Proof. intros Hlen. unfold WithConfig. by rewrite Hlen. Qed.

End JwtProperties.

(** ** The authenticators on the fixtures *)

Section AuthenticatorRuns.
Import Authenticators Fixtures.

(** A token signed with the ES256 key k1 gives the subject alice. *)
Example Authenticate_alice :
  Authenticate baseAuthenticator [] (bearer "h1.alice.sig") {| sc_Subject := None |} 0
  = (({| sc_Subject := Some {| Id := "alice"; Attributes := ∅ |} |}, None), 1).
Proof. reflexivity. Qed.

(** With a bearer header and a query parameter the header wins. *)
Example extraction_order :
  Extractors.Strategy_GetAuthData defaultAuthDataSource
    (requestContextOf {[ "Authorization" := "Bearer X" ]} ∅
                      {[ "access_token" := "Y" ]} ∅ "")
  = ("X", None).
Proof. reflexivity. Qed.

(** C4, the statement of the specification fails: the request carries no credential and
    the key set endpoint refuses the connection; [Authenticate] ends with the
    transport error, not with the auth-data-missing error, and the request to
    the endpoint was sent. *)
Lemma C4_no_credential_but_transport_error :
  (∃ cause, snd (adg_GetAuthData (adg downAuthenticator) noCredentials) = Some cause)
  ∧ Authenticate downAuthenticator [] noCredentials {| sc_Subject := None |} 0
    = (({| sc_Subject := None |}, Some (LibraryError "http" "connection refused")), 1).
Proof. split; [by eexists|reflexivity]. Qed.

(** C4 on the fixtures: the endpoint serves the key set and the request
    carries no credential. *)
Lemma C4_Authenticate_fetches_key_set_first_witness :
  ∃ cause,
    Authenticate baseAuthenticator [] noCredentials {| sc_Subject := None |} 0
    = (({| sc_Subject := None |}, Some (ArgumentError "no jwt present" cause)), 1).
Proof.
  destruct (C4_Authenticate_fetches_key_set_first (W := nat) baseAuthenticator []
              noCredentials {| sc_Subject := None |} 0 1 "jwks") as (_ & _ & Hmissing).
  eexists. apply (Hmissing keySet); reflexivity.
Defined.

(** C5, the statement of the specification fails: the payload [{}] has nothing at the
    path [sub], and [GetSubject] returns a subject with an empty id and a
    nil error. *)
Lemma C5_missing_identifier_gives_empty_id :
  gjson_GetBytes_Raw claimsEmpty (SubjectFrom session) = ""
  ∧ GetSubject session claimsEmpty = (Some {| Id := ""; Attributes := ∅ |}, None).
Proof. split; reflexivity. Qed.

(** C5 on the fixtures: the payload whose member sub is the number 42. *)
Lemma C5_GetSubject_identifier_decoding_witness :
  GetSubject session claimsNumber
  = (None, Some (subjectFromError (json_UnmarshalTypeError "number" "string"))).
Proof.
  destruct (C5_GetSubject_identifier_decoding session claimsNumber) as (Htype & _ & _).
  apply (Htype (JNumber 42)); [discriminate|reflexivity|discriminate|discriminate].
Defined.

(** C7 on the fixtures: a configuration with no assertions, and a token
    whose key has the algorithm HS256. *)
Lemma C7_default_allow_list_and_its_check_witness :
  (∃ recv, NewJwtAuthenticatorFromYAML "jwks_endpoint: {url: https://idp/jwks}"
           = (Some recv, None)
           ∧ AllowedAlgorithms (a recv) = defaultAllowedAlgorithms)
  ∧ verifyTokenAndGetClaims baseAuthenticator "h2.alice.sig" keySet
    = Fail (fmt_Errorf "HS256 algorithm is not allowed").
Proof.
  destruct (C7_default_allow_list_and_its_check (W := nat)) as (Hnew & _ & Hcheck).
  split.
  - destruct (Hnew "jwks_endpoint: {url: https://idp/jwks}"
                (configFor "https://idp/jwks") eq_refl eq_refl) as [Hdefault Hreturns].
    destruct Hreturns as [recv Hrecv]; [reflexivity| |].
    + intros ep Hurl. simpl. rewrite Hurl. reflexivity.
    + exists recv. split; [done|]. by apply Hdefault.
  - apply (Hcheck baseAuthenticator "h2.alice.sig" keySet
             {| token_Headers := [header "k2" "HS256"]; token_payload := "alice" |}
             {| KeyID := "k2"; Algorithm := "HS256"; Key := "shared" |});
      [reflexivity|reflexivity|reflexivity|].
    rewrite <- Contains_elem_of. simpl. discriminate.
Defined.

(** C8 on the fixtures: the base authenticator at location 1 and an override
    of the issuer. *)
Lemma C8_WithConfig_replaces_assertions_only_witness :
  ∃ new σ',
    WithConfig 1%positive "jwt_assertions: {issuer: corp}" {[ 1%positive := baseAuthenticator ]}
    = Some ((Some new, None), σ')
    ∧ new ≠ 1%positive
    ∧ σ' !! 1%positive = Some baseAuthenticator
    ∧ (e <$> σ' !! new) = Some (e baseAuthenticator)
    ∧ (Issuer ∘ a <$> σ' !! new) = Some "corp".
Proof.
  destruct (C8_WithConfig_replaces_assertions_only (W := nat)
              {[ 1%positive := baseAuthenticator ]} 1%positive baseAuthenticator
              "jwt_assertions: {issuer: corp}") as [Hok _];
    [reflexivity|discriminate|].
  destruct (Hok {| AllowedAlgorithms := []; Issuer := "corp"; Audiences := [];
                   Scopes := []; ClockSkew := 0 |} eq_refl)
    as (new & σ' & Hcall & Hnew & _ & Hobj & Hbase & _).
  exists new, σ'. rewrite Hobj. done.
Defined.

(** C9 on the fixtures. *)
Lemma C9_WithConfig_empty_is_identity_witness :
  WithConfig 1%positive "" {[ 1%positive := baseAuthenticator ]}
  = Some ((Some 1%positive, None), {[ 1%positive := baseAuthenticator ]}).
Proof.
  apply (C9_WithConfig_empty_is_identity (W := nat)). reflexivity.
Defined.

End AuthenticatorRuns.

(** ** Rule pipeline *)

Section ExecuteProperties.
Import Handler Rules PipelineSpec.
Context {W : Type}.

(** C2. [Execute] runs Authenticate, Authorize, Hydrate, Mutate in this
    order. When a stage fails no later stage is called, the error handler of
    the rule is called once, with the error of that stage, and [Execute]
    returns nil with what the handler returned. When the four stages succeed
    the handler is not called and [Execute] returns the subject context with
    a nil error. The calls are read off the record of calls of the run. *)
Theorem C2_Execute_short_circuit (r : rule W) (ctx : Context)
    (reqCtx : RequestContext) (s : ExecState W) :
  let '(ran, sc, failure, w) :=
    runStages (stages r ctx reqCtx) {| sc_Subject := None |} (world s) in
  ran `prefix_of` stageOrder
  ∧ match failure with
    | None =>
        ran = stageOrder
        ∧ Execute r ctx reqCtx s
          = ((Some sc, None),
             {| world := w; calls := calls s ++ ran; logs := logs s |})
    | Some (msg, e) =>
        let '(res, w') := HandleError (eh r) ctx e w in
        Execute r ctx reqCtx s
        = ((None, res),
           {| world := w';
              calls := calls s ++ ran ++ [CallHandleError e];
              logs := logs s ++ [ {| log_level := InfoLevel; log_err := Some e;
                                     log_fields := []; log_msg := msg |} ] |})
    end.
Proof.
  unfold Execute, stages, stageOrder, mbind, M_bind, mret, M_ret, invoke, logInfo.
  destruct s as [w0 cs0 ls0]. cbn [runStages world calls logs].
  destruct (Authenticate (an r) ctx reqCtx _ w0) as [[sc1 [e1|]] w1]; cbn.
  { destruct (HandleError (eh r) ctx e1 w1) as [res w'].
    rewrite <- ?app_assoc.
    split; [by exists [CallAuthorize; CallHydrate; CallMutate]|done]. }
  destruct (Authorize (az r) ctx reqCtx sc1 w1) as [[sc2 [e2|]] w2]; cbn.
  { destruct (HandleError (eh r) ctx e2 w2) as [res w'].
    rewrite <- ?app_assoc. split; [by exists [CallHydrate; CallMutate]|done]. }
  destruct (Hydrate (h r) ctx sc2 w2) as [[sc3 [e3|]] w3]; cbn.
  { destruct (HandleError (eh r) ctx e3 w3) as [res w'].
    rewrite <- ?app_assoc. split; [by exists [CallMutate]|done]. }
  destruct (Mutate (m r) ctx sc3 w3) as [[sc4 [e4|]] w4]; cbn.
  { destruct (HandleError (eh r) ctx e4 w4) as [res w'].
    rewrite <- ?app_assoc. split; [by exists []|done]. }
  rewrite <- ?app_assoc. split; [by exists []|done].
Qed.

End ExecuteProperties.

Section RepositoryRuns.
Import Rules Fixtures.

(** C3 on the fixtures: the second of three configurations cannot be built. *)
Lemma C3_failed_batch_adds_no_rule_witness :
  let r := onRuleSetCreated emptyRepository "sourceA" "R1,R2" in
  map id (rules (onRuleSetCreated r "sourceB" "R4,R5!,R6"))
  = ["R1"; "R2"].
Proof.
  intros r.
  destruct (C3_failed_batch_adds_no_rule (W := nat) (Cfg := string)
              r "sourceB" "R4,R5!,R6") as [-> _]; [|reflexivity].
  right. exists [ruleConfig "R4" "anonymous"; ruleConfig "R5" "broken";
                 ruleConfig "R6" "anonymous"],
                (ruleConfig "R5" "broken"),
                (ArgumentError "authenticator" (errors_New "broken configuration")).
  split; [reflexivity|]. split; [|reflexivity].
  apply elem_of_cons; right. apply elem_of_cons; by left.
Defined.

(** C6, the statement of the specification fails: a rule with an empty
    method list does not match GET. *)
Lemma C6_empty_method_list_matches_nothing :
  methods anyMethodRule = []
  ∧ MatchesMethod anyMethodRule "GET" = false.
Proof. split; reflexivity. Qed.

(** C1, on the code as it is. [removeRules] only writes a log entry (its body
    is a TODO), so after Create(sourceA, R1 R2), Create(sourceB, R3) and
    Remove(sourceA) the rules of sourceA are still in the collection and
    [FindRule] still answers with R1 of sourceA. *)
Theorem C1_remove_leaves_rules_of_source :
  let r := watchRuleSetChanges emptyRepository
             [created "sourceA" "R1,R2"; created "sourceB" "R3";
              removed "sourceA"] in
  map (λ rl, (srcID rl, id rl)) (rules r)
  = [("sourceA", "R1"); ("sourceA", "R2"); ("sourceB", "R3")]
  ∧ ∃ rl, FindRule r "/api/R1" = (Some rl, None)
          ∧ srcID rl = "sourceA" ∧ id rl = "R1".
Proof.
  split; [reflexivity|]. eexists. split; [reflexivity|]. split; reflexivity.
Qed.

(** A rule whose authenticator denies: the world shows that the authenticator
    (1) and the error handler (16) acted and no other stage did. *)
Example Execute_authentication_denied :
  match newRule emptyRepository "sourceA" (ruleConfig "R7" "deny") with
  | Ok rl =>
      Execute rl [] request {| world := 0; calls := []; logs := [] |}
      = ((None, Some (UnauthorizedError "denied" (errors_New "authentication denied"))),
         {| world := 17;
            calls := [CallAuthenticate;
                      CallHandleError (errors_New "authentication denied")];
            logs := [ {| log_level := InfoLevel;
                         log_err := Some (errors_New "authentication denied");
                         log_fields := []; log_msg := "Authentication failed" |} ] |})
  | Fail _ => False
  end.
Proof. reflexivity. Qed.

End RepositoryRuns.

(* ===================================================================== *)
(** * Part III: further properties of the code                            *)
(* ===================================================================== *)

(** ** The rule collection under change events *)

Section RepositoryEvents.
Import Rules.
Context {W Cfg : Type} `{!RuleSetDecoder Cfg}.
Implicit Types (r : repository W Cfg) (rc : RuleConfig Cfg).



Lemma newRule_fields r srcID rc rl :
  newRule r srcID rc = Ok rl →
  id rl = ID rc ∧ url rl = URL rc ∧ methods rl = Methods rc ∧ Rules.srcID rl = srcID.
Proof.
  unfold newRule.
  destruct (CreateAuthenticator _ _); [|done]. destruct (CreateAuthorizer _ _); [|done].
  destruct (CreateHydrator _ _); [|done]. destruct (CreateMutator _ _); [|done].
  destruct (CreateErrorHandler _ _); [|done]. by intros [= <-].
Qed.

(** What a Create event does to the repository, in one equation each. *)
Lemma onRuleSetCreated_rules r srcID definition :
  rules (onRuleSetCreated r srcID definition)
  = rules r ++ fst (loadRules r srcID definition).
Proof.
  unfold onRuleSetCreated. rewrite loadRules_log.
  destruct (loadRules r srcID definition) as [rs [err|]]; simpl;
    by rewrite rules_foldl_addRule.
Qed.

Lemma hf_foldl_addRule r (rs : list (rule W)) : hf (foldl addRule r rs) = hf r.
Proof. revert r. induction rs as [|x rs IH]; intros r; simpl; [done|by rewrite IH]. Qed.

Lemma onRuleSetCreated_hf r srcID definition :
  hf (onRuleSetCreated r srcID definition) = hf r.
Proof.
  unfold onRuleSetCreated.
  destruct (loadRules _ srcID definition) as [rs [err|]]; by rewrite hf_foldl_addRule.
Qed.

Lemma logger_foldl_addRule r (rs : list (rule W)) :
  logger r `prefix_of` logger (foldl addRule r rs).
Proof.
  revert r. induction rs as [|x rs IH]; intros r; simpl; [done|].
  etrans; [|apply IH]. simpl. by apply prefix_app_r.
Qed.

Lemma onRuleSetCreated_logger r srcID definition :
  logger r `prefix_of` logger (onRuleSetCreated r srcID definition).
Proof.
  unfold onRuleSetCreated.
  destruct (loadRules _ srcID definition) as [rs [err|]];
    (etrans; [|apply logger_foldl_addRule]); simpl.
  - rewrite <- app_assoc. by apply prefix_app_r.
  - by apply prefix_app_r.
Qed.

Lemma loadRules_range_error r srcID (rcs : list (RuleConfig Cfg)) filled rs err :
  loadRules_range r srcID rcs filled = (rs, Some err) → rs = [].
Proof.
  revert filled. induction rcs as [|rc rcs IH]; intros filled; simpl; [done|].
  destruct (newRule r srcID rc); [apply IH|by intros [= <- _]].
Qed.


(** The two ways [loadRules] can end. *)
Lemma loadRules_cases r srcID definition :
  match loadRules r srcID definition with
  | (rs, Some err) => rs = []
  | (rs, None) =>
      ∃ rcs, parseRuleSetFromYaml definition = Ok rcs
             ∧ Forall2 (λ rc rl, newRule r srcID rc = Ok rl) rcs rs
  end.
Proof.
  unfold loadRules. destruct (parseRuleSetFromYaml definition) as [rcs|err]; [|done].
  destruct (loadRules_range r srcID rcs []) as [rs [err|]] eqn:Hload.
  - by apply loadRules_range_error in Hload.
  - destruct (loadRules_range_ok _ _ _ _ _ Hload) as (built & -> & Hbuilt). eauto.
Qed.

(** X5. [loadRules] returns all or nothing: with an error the slice is nil;
    without one the definition parsed and the slice holds, in the order of
    the definition, the rule built from each configuration. *)
Theorem X5_loadRules_all_or_nothing r srcID definition :
  match loadRules r srcID definition with
  | (rs, Some err) => rs = []
  | (rs, None) =>
      ∃ rcs, parseRuleSetFromYaml definition = Ok rcs
             ∧ Forall2 (λ rc rl, newRule r srcID rc = Ok rl) rcs rs
  end.
Proof. apply loadRules_cases. Qed.

(** X2. A Create event whose definition parses and whose configurations can
    all be built appends one rule per configuration, in the order of the
    definition, behind the rules that were there; each of them has the id,
    the url and the methods of its configuration and the source of the
    event. *)
Theorem X2_onRuleSetCreated_appends_in_order r srcID definition rcs :
  parseRuleSetFromYaml definition = Ok rcs →
  (∀ rc, rc ∈ rcs → ∃ rl, newRule r srcID rc = Ok rl) →
  ∃ built,
    rules (onRuleSetCreated r srcID definition) = rules r ++ built
    ∧ Forall2 (λ rc rl, id rl = ID rc ∧ url rl = URL rc
                        ∧ methods rl = Methods rc ∧ Rules.srcID rl = srcID)
        rcs built.
Proof.
  intros Hparse Hall.
  destruct (onRuleSetCreated_ok r srcID definition rcs Hparse Hall)
    as (built & Hrules & Hbuilt).
  exists built. split; [done|].
  eapply Forall2_impl; [done|]. intros rc rl. apply newRule_fields.
Qed.


(** What one event does to the three fields of the repository. *)
Lemma dispatch_grows r evt :
  rules r `prefix_of` rules (dispatch r evt)
  ∧ logger r `prefix_of` logger (dispatch r evt)
  ∧ hf (dispatch r evt) = hf r.
Proof.
  unfold dispatch. destruct (ChangeType_ evt).
  - split; [|split].
    + rewrite onRuleSetCreated_rules. by apply prefix_app_r.
    + apply onRuleSetCreated_logger.
    + apply onRuleSetCreated_hf.
  - split; [done|]. split; [|done]. simpl. by apply prefix_app_r.
Qed.

(** What a queue of events does to the three fields of the repository. *)
Lemma watchRuleSetChanges_grows r (queue : list RuleSetChangedEvent) :
  rules r `prefix_of` rules (watchRuleSetChanges r queue)
  ∧ logger r `prefix_of` logger (watchRuleSetChanges r queue)
  ∧ hf (watchRuleSetChanges r queue) = hf r.
Proof.
  unfold watchRuleSetChanges. revert r.
  induction queue as [|evt queue IH]; intros r; simpl; [done|].
  destruct (dispatch_grows r evt) as (Hr & Hl & Hh).
  destruct (IH (dispatch r evt)) as (Hr' & Hl' & Hh').
  split; [by etrans|]. split; [by etrans|congruence].
Qed.

(** X3. Whatever events arrive, the rules that were in the collection stay
    where they are: the old collection is a prefix of the new one. The same
    holds for the log, and the handler factory is never changed. *)
Theorem X3_watchRuleSetChanges_only_appends r (queue : list RuleSetChangedEvent) :
  rules r `prefix_of` rules (watchRuleSetChanges r queue)
  ∧ logger r `prefix_of` logger (watchRuleSetChanges r queue)
  ∧ hf (watchRuleSetChanges r queue) = hf r.
Proof. apply watchRuleSetChanges_grows. Qed.

(** X4. Every rule of the collection was either there before the events or
    was loaded by a Create event of the queue, and then carries the source of
    that event. *)
Theorem X4_watchRuleSetChanges_provenance r (queue : list RuleSetChangedEvent) rl :
  rl ∈ rules (watchRuleSetChanges r queue) →
  rl ∈ rules r
  ∨ ∃ evt, evt ∈ queue ∧ ChangeType_ evt = Create ∧ srcID rl = Src evt.
Proof.
  unfold watchRuleSetChanges. revert r.
  induction queue as [|evt queue IH]; intros r; simpl; [by left|].
  intros [Hin|(evt' & Hevt & Hc & Hsrc)]%IH.
  - unfold dispatch in Hin. destruct (ChangeType_ evt) eqn:Hct.
    + rewrite onRuleSetCreated_rules in Hin.
      apply elem_of_app in Hin as [Hin|Hin]; [by left|].
      right. exists evt. split; [by left|]. split; [done|].
      pose proof (loadRules_cases r (Src evt) (Definition_ evt)) as Hload.
      destruct (loadRules r (Src evt) (Definition_ evt)) as [rs [err|]]; simpl in Hin.
      * subst rs. by apply elem_of_nil in Hin.
      * destruct Hload as (rcs & _ & Hbuilt).
        apply list_elem_of_lookup in Hin as [i Hi].
        destruct (Forall2_lookup_r _ _ _ _ _ Hbuilt Hi) as (rc & _ & Hrc).
        by apply newRule_fields in Hrc as (_ & _ & _ & ?).
    + by left.
  - right. exists evt'. split; [by right|done].
Qed.

(** The first rule of the collection answers every lookup. *)
Lemma FindRule_first r requestURL :
  FindRule r requestURL
  = match rules r with
    | [] => (None, Some ErrNoRuleFound)
    | rl :: _ => (Some rl, None)
    end.
Proof. unfold FindRule. by destruct (rules r). Qed.

(** X1. Once the collection holds a rule, the answer of [FindRule] is settled:
    for every URL it is the first rule of the collection, with a nil error,
    and no later event changes it. *)
Theorem X1_FindRule_settled r (queue : list RuleSetChangedEvent)
    (requestURL requestURL' : string) :
  rules r ≠ [] →
  ∃ rl rest,
    rules r = rl :: rest
    ∧ FindRule r requestURL = (Some rl, None)
    ∧ FindRule (watchRuleSetChanges r queue) requestURL' = (Some rl, None).
Proof.
  intros Hne. rewrite !FindRule_first.
  destruct (watchRuleSetChanges_grows r queue) as ([more ->] & _).
  destruct (rules r) as [|rl rest]; [done|]. by exists rl, rest.
Qed.

End RepositoryEvents.

(** ** The query parameter strategy on its edges *)

Section ExtractorEdges.
Import Strings Extractors.

(** X7. The strategy can succeed with an empty token: it returns the empty
    string and a nil error exactly when the parameter has a value that is
    not empty and what is left of it behind the prefix is the text of white
    space runes only (of Unicode white space, as [strings.TrimSpace] has
    it), as for a value that is just the prefix. *)
Theorem X7_GetAuthData_empty_token (es : QueryParameterExtractStrategy)
    (s : RequestContext) :
  GetAuthData es s = ("", None)
  ↔ Query s (Name es) ≠ ""
    ∧ allSpace (TrimPrefix (Query s (Name es)) (Prefix es)).
Proof.
  rewrite GetAuthData_cases. case_decide as Hval.
  - split; [done|]. by intros [? _].
  - split.
    + intros [= Htrim]. split; [done|]. by apply TrimSpace_empty.
    + intros [_ Hsp]. apply TrimSpace_empty in Hsp. by rewrite Hsp.
Qed.

(** X8. The prefix is looked for at the very start of the value, before any
    trimming: a value that does not start with the prefix, be it only for a
    leading blank, is returned whole, trimmed. And the request is read
    through the query parameter of the configured name only. *)
Theorem X8_GetAuthData_prefix_at_start_only (es : QueryParameterExtractStrategy)
    (s s' : RequestContext) :
  (Query s (Name es) ≠ "" →
   HasPrefix (Query s (Name es)) (Prefix es) = false →
   GetAuthData es s = (TrimSpace (Query s (Name es)), None))
  ∧ (Query s' (Name es) = Query s (Name es) → GetAuthData es s' = GetAuthData es s).
Proof.
  split.
  - intros Hval Hpre. rewrite GetAuthData_cases, decide_False by done.
    unfold TrimPrefix. by rewrite Hpre.
  - intros Hq. by rewrite !GetAuthData_cases, Hq.
Qed.

End ExtractorEdges.

(** ** Subject extraction *)

Section SessionMore.
Import Authenticators Outcomes.
Context `{!JSONText}.

(** The text a locator gives, coalesced, is read as null when there is none. *)
Lemma parse_coalesced (raw : string) :
  json_parse (Stringsx.Coalesce [raw; "null"])
  = if decide (raw = "") then Some JNull else json_parse raw.
Proof. rewrite Coalesce_null. case_decide; [apply json_parse_null|done]. Qed.

(** X9. [GetSubject] returns either a subject or an error, never both and
    never neither. *)
Theorem X9_GetSubject_subject_xor_error (s : Session) (rawData : string) :
  (∃ subject, GetSubject s rawData = (Some subject, None))
  ∨ (∃ err, GetSubject s rawData = (None, Some err)).
Proof.
  unfold GetSubject.
  destruct (Json.Unmarshal_string _ _); [|by eauto].
  destruct (Json.Unmarshal_map _ _); by eauto.
Qed.

(** X10. [GetSubject] builds a subject exactly when the identifier path gives
    a JSON string, null or nothing, and the attributes path gives a JSON
    object, null or nothing. The id is the string (empty for null and
    nothing) and the attributes are the members of the object (none for null
    and nothing). *)
Theorem X10_GetSubject_success (s : Session) (rawData : string) (subject : Subject) :
  GetSubject s rawData = (Some subject, None)
  ↔ identifierFound (gjson_GetBytes_Raw rawData (SubjectFrom s)) (Id subject)
    ∧ attributesFound (gjson_GetBytes_Raw rawData (AttributesFrom s))
                      (Attributes subject).
Proof.
  unfold GetSubject, Json.Unmarshal_string, Json.Unmarshal_map.
  rewrite !parse_coalesced.
  set (rawId := gjson_GetBytes_Raw rawData (SubjectFrom s)).
  set (rawA := gjson_GetBytes_Raw rawData (AttributesFrom s)).
  unfold identifierFound, attributesFound. destruct subject as [id attrs]. simpl.
  split.
  - destruct (decide (rawId = "")) as [Hid|Hid].
    + destruct (decide (rawA = "")) as [HA|HA].
      * intros [= <- <-]. split; by left.
      * destruct (json_parse rawA) as [[]|] eqn:HpA; try done.
        -- intros [= <- <-]. split; [by left|right; by left].
        -- intros [= <- <-]. split; [by left|right; right; by eexists].
    + destruct (json_parse rawId) as [[]|] eqn:HpI; try done.
      * destruct (decide (rawA = "")) as [HA|HA].
        -- intros [= <- <-]. split; [right; by left|by left].
        -- destruct (json_parse rawA) as [[]|] eqn:HpA; try done.
           ++ intros [= <- <-]. split; right; by left.
           ++ intros [= <- <-]. split; [right; by left|right; right; by eexists].
      * destruct (decide (rawA = "")) as [HA|HA].
        -- intros [= <- <-]. split; [right; by right|by left].
        -- destruct (json_parse rawA) as [[]|] eqn:HpA; try done.
           ++ intros [= <- <-]. split; [right; by right|right; by left].
           ++ intros [= <- <-]. split; [right; by right|right; right; by eexists].
  - intros [Hid HA].
    assert ((if decide (rawId = "") then Some JNull else json_parse rawId) = Some JNull
            ∧ id = ""
            ∨ (if decide (rawId = "") then Some JNull else json_parse rawId)
              = Some (JString id)) as Hid'.
    { destruct Hid as [[-> ->]|[[Hp ->]|Hp]].
      - left. by rewrite decide_True.
      - left. case_decide; done.
      - right. rewrite decide_False; [done|]. intros Heq.
        rewrite Heq, json_parse_empty in Hp. done. }
    assert ((if decide (rawA = "") then Some JNull else json_parse rawA) = Some JNull
            ∧ attrs = ∅
            ∨ ∃ members,
                (if decide (rawA = "") then Some JNull else json_parse rawA)
                = Some (JObject members)
                ∧ attrs = foldl (λ acc kv, <[kv.1 := kv.2]> acc) ∅ members) as HA'.
    { destruct HA as [[-> ->]|[[Hp ->]|(members & Hp & ->)]].
      - left. by rewrite decide_True.
      - left. destruct (decide (rawA = "")); done.
      - right. exists members. rewrite decide_False; [done|]. intros Heq.
        rewrite Heq, json_parse_empty in Hp. done. }
    clear Hid HA.
    destruct Hid' as [[-> ->]| ->]; destruct HA' as [[-> ->]|(members & -> & ->)]; done.
Qed.

(** X11. When the identifier decodes and the attributes path gives a JSON
    value that is neither an object nor null, or text that is not JSON,
    [GetSubject] fails with the error of the attributes path. *)
Theorem X11_GetSubject_attributes_error (s : Session) (rawData : string) (id : string) :
  let rawA := gjson_GetBytes_Raw rawData (AttributesFrom s) in
  identifierFound (gjson_GetBytes_Raw rawData (SubjectFrom s)) id →
  rawA ≠ "" →
  (∀ v, json_parse rawA = Some v → v ≠ JNull → (∀ members, v ≠ JObject members) →
        GetSubject s rawData
        = (None, Some (attributesFromError
                         (json_UnmarshalTypeError (Json.kind v)
                                                  "map[string]interface {}"))))
  ∧ (json_parse rawA = None →
     GetSubject s rawData = (None, Some (attributesFromError json_SyntaxError))).
Proof.
  intros rawA Hid HA.
  unfold GetSubject, Json.Unmarshal_string, Json.Unmarshal_map, attributesFromError.
  rewrite !parse_coalesced. fold rawA. rewrite (decide_False (P := rawA = "")) by done.
  set (rawId := gjson_GetBytes_Raw rawData (SubjectFrom s)) in *.
  assert (∃ v, (if decide (rawId = "") then Some JNull else json_parse rawId) = Some v
               ∧ (v = JNull ∨ ∃ i, v = JString i)) as (vi & -> & Hvi).
  { destruct Hid as [[-> _]|[[Hp _]|Hp]].
    - exists JNull. rewrite decide_True by done. auto.
    - exists JNull. case_decide; auto.
    - exists (JString id). rewrite decide_False; [by eauto|].
      intros Heq. by rewrite Heq, json_parse_empty in Hp. }
  split.
  - intros v -> Hnull Hobj.
    destruct Hvi as [->|[i ->]]; destruct v; try done; by destruct (Hobj members).
  - intros ->. by destruct Hvi as [->|[i ->]].
Qed.

End SessionMore.

(** ** The JWT authenticator: construction *)

Section JwtConstruction.
Import Authenticators.
Context {W : Type} `{!Libraries W, !JSONText}.

(** X12. Construction fills in only what the configuration leaves open. The
    address of the endpoint is kept; the method is GET when none is given;
    the header Accept-Type is set to application/json unless the
    configuration has it, and every other header is kept. The subject
    locator is sub when none is given, and the auth data is taken by the
    configured strategy, or by the default one when none is configured. *)
Theorem X12_NewJwtAuthenticatorFromYAML_fills_defaults (rawConfig : string)
    (conf : config) (recv : jwtAuthenticator) :
  yaml_UnmarshalStrict_config rawConfig = Ok conf →
  NewJwtAuthenticatorFromYAML rawConfig = (Some recv, None) →
  let ep := conf_Endpoint conf in
  let session := conf_Session conf in
  URL (e recv) = URL ep
  ∧ Method (e recv) = (if decide (Method ep = "") then "GET" else Method ep)
  ∧ Headers (e recv) !! "Accept-Type"
    = Some (default "application/json" (Headers ep !! "Accept-Type"))
  ∧ (∀ name, name ≠ "Accept-Type" → Headers (e recv) !! name = Headers ep !! name)
  ∧ se recv
    = sessionExtractor
        {| SubjectFrom := if decide (SubjectFrom session = "") then "sub"
                          else SubjectFrom session;
           AttributesFrom := AttributesFrom session |}
  ∧ adg recv
    = strategyGetter (default defaultAuthDataSource (conf_AuthDataSource conf)).
Proof.
  intros Hconf. unfold NewJwtAuthenticatorFromYAML. rewrite Hconf.
  destruct (Expectation_Validate _); [done|].
  destruct (Endpoint_Validate _); [done|]. intros [= <-]. simpl.
  split; [done|]. split.
  { destruct (Method (conf_Endpoint conf)); [by rewrite decide_True|].
    by rewrite decide_False. }
  split.
  { destruct (Headers (conf_Endpoint conf) !! "Accept-Type") as [v|] eqn:Hh; simpl.
    - done.
    - by rewrite lookup_insert_eq. }
  split.
  { intros name Hname.
    destruct (Headers (conf_Endpoint conf) !! "Accept-Type"); [done|].
    by rewrite lookup_insert_ne. }
  split.
  { destruct (conf_Session conf) as [sf af]. simpl.
    destruct sf; [by rewrite decide_True|by rewrite decide_False]. }
  by destruct (conf_AuthDataSource conf).
Qed.

(** X13. A configured allow-list is taken as it is: the default algorithms
    are installed only for an empty list and are never added to a
    configured one. The other parts of the assertions are never changed. *)
Theorem X13_NewJwtAuthenticatorFromYAML_keeps_assertions (rawConfig : string)
    (conf : config) (recv : jwtAuthenticator) :
  yaml_UnmarshalStrict_config rawConfig = Ok conf →
  NewJwtAuthenticatorFromYAML rawConfig = (Some recv, None) →
  let assertions := conf_JwtAssertions conf in
  (AllowedAlgorithms assertions ≠ [] → a recv = assertions)
  ∧ Issuer (a recv) = Issuer assertions
  ∧ Audiences (a recv) = Audiences assertions
  ∧ Scopes (a recv) = Scopes assertions
  ∧ ClockSkew (a recv) = ClockSkew assertions.
Proof.
  intros Hconf. unfold NewJwtAuthenticatorFromYAML. rewrite Hconf.
  destruct (Expectation_Validate _); [done|].
  destruct (Endpoint_Validate _); [done|]. intros [= <-]. simpl.
  destruct (AllowedAlgorithms (conf_JwtAssertions conf)) as [|alg algs]; simpl;
    repeat split; done.
Qed.

(** X14. Construction ends with an authenticator or with an error, never
    with both. An error of decoding is returned as it is; assertions that do
    not validate give the argument error for the assertions, whatever the
    endpoint is like. An authenticator that is returned has an endpoint that
    validates as it stands, with the defaults in it, and was built from
    assertions that validate as configured. *)
Theorem X14_NewJwtAuthenticatorFromYAML_outcomes (rawConfig : string) :
  ((∃ recv, NewJwtAuthenticatorFromYAML rawConfig = (Some recv, None))
   ∨ (∃ err, NewJwtAuthenticatorFromYAML rawConfig = (None, Some err)))
  ∧ (∀ err, yaml_UnmarshalStrict_config rawConfig = Fail err →
            NewJwtAuthenticatorFromYAML rawConfig = (None, Some err))
  ∧ (∀ conf err, yaml_UnmarshalStrict_config rawConfig = Ok conf →
                 Expectation_Validate (conf_JwtAssertions conf) = Some err →
                 NewJwtAuthenticatorFromYAML rawConfig
                 = (None, Some (ArgumentError
                                  "failed to validate assertions configuration" err)))
  ∧ (∀ recv, NewJwtAuthenticatorFromYAML rawConfig = (Some recv, None) →
             Endpoint_Validate (e recv) = None
             ∧ ∃ conf, yaml_UnmarshalStrict_config rawConfig = Ok conf
                       ∧ Expectation_Validate (conf_JwtAssertions conf) = None).
Proof.
  unfold NewJwtAuthenticatorFromYAML.
  destruct (yaml_UnmarshalStrict_config rawConfig) as [conf|err0].
  - destruct (Expectation_Validate _) as [err1|] eqn:Hv1.
    + split; [by eauto|]. split; [done|]. split; [|done].
      by intros conf' err [= <-]; rewrite Hv1; intros [= <-].
    + destruct (Endpoint_Validate _) as [err2|] eqn:Hv2.
      * split; [by eauto|]. split; [done|]. split; [|done].
        intros conf' err [= <-]. by rewrite Hv1.
      * split; [by eauto|]. split; [done|]. split.
        { intros conf' err [= <-]. by rewrite Hv1. }
        intros recv [= <-]. simpl. split; [done|]. by eauto.
  - split; [by eauto|]. split; [by intros err [= <-]|]. split; done.
Qed.

End JwtConstruction.

(** ** The JWT authenticator: verification *)

Section JwtVerification.
Import Authenticators Outcomes.
Context {W : Type} `{!Libraries W, !JSONText}.

(** X15. A token is accepted only when every check passed: the text has two
    dots and parses, exactly one key was located, the check of its algorithm
    answered yes, the signature verified and gave the claims, the claims
    validate against the assertions, and the claims could be written as
    JSON, which is then the result. Conversely these conditions are enough. *)
Theorem X15_verifyTokenAndGetClaims_accepts (recv : jwtAuthenticator)
    (jwtRaw : string) (jwks : JSONWebKeySet) (rawPayload : string) :
  verifyTokenAndGetClaims recv jwtRaw jwks = Ok rawPayload
  ↔ Strings.Count jwtRaw "." = 2
    ∧ ∃ token key mapClaims claims,
        jwt_ParseSigned jwtRaw = Ok token
        ∧ lookupKeys jwks (token_Headers token) [] = [key]
        ∧ IsAlgorithmAllowed (a recv) (Algorithm key) = true
        ∧ token_Claims token jwks = Ok (mapClaims, claims)
        ∧ Claims_Validate claims (a recv) = None
        ∧ json_Marshal mapClaims = Ok rawPayload.
Proof.
  unfold verifyTokenAndGetClaims. split.
  - destruct (Strings.Count jwtRaw "." =? 2)%nat eqn:Hcount; [|done]. simpl.
    apply Nat.eqb_eq in Hcount.
    destruct (jwt_ParseSigned jwtRaw) as [token|] eqn:Htoken; [|done].
    destruct (lookupKeys jwks (token_Headers token) []) as [|key [|]] eqn:Hkeys;
      try done.
    destruct (IsAlgorithmAllowed _ _) eqn:Halg; [|done]. simpl.
    destruct (token_Claims token jwks) as [[mapClaims claims]|] eqn:Hcl; [|done].
    destruct (Claims_Validate claims (a recv)) eqn:Hval; [done|].
    destruct (json_Marshal mapClaims) eqn:Hm; [|done].
    intros [= <-]. split; [done|]. by exists token, key, mapClaims, claims.
  - intros (-> & token & key & mapClaims & claims & -> & -> & -> & -> & -> & ->).
    done.
Qed.

(** The loop over the headers, for any keys found before it. *)
Lemma lookupKeys_cases (jwks : JSONWebKeySet) (headers : list Header)
    (keys : list JSONWebKey) :
  ((∀ h, h ∈ headers → JSONWebKeySet_Key jwks (Header_KeyID h) = [])
   ∧ lookupKeys jwks headers keys = match headers with [] => keys | _ => [] end)
  ∨ ∃ before h after,
      headers = before ++ h :: after
      ∧ (∀ h', h' ∈ before → JSONWebKeySet_Key jwks (Header_KeyID h') = [])
      ∧ JSONWebKeySet_Key jwks (Header_KeyID h) ≠ []
      ∧ lookupKeys jwks headers keys = JSONWebKeySet_Key jwks (Header_KeyID h).
Proof.
  revert keys. induction headers as [|h headers IH]; intros keys; simpl.
  - left. split; [|done]. by intros h ?%elem_of_nil.
  - destruct (JSONWebKeySet_Key jwks (Header_KeyID h)) as [|k ks] eqn:Hk; simpl.
    + destruct (IH []) as [[Hnone Hres]|(before & h0 & after & -> & Hb & Hne & Hres)].
      * left. split.
        { intros h' [->|Hin]%elem_of_cons; [done|by apply Hnone]. }
        rewrite Hres. by destruct headers.
      * right. exists (h :: before), h0, after. split; [done|]. split; [|done].
        intros h' [->|Hin]%elem_of_cons; [done|by apply Hb].
    + right. exists [], h, headers. split; [done|].
      split; [by intros h' ?%elem_of_nil|]. by rewrite Hk.
Qed.

(** X16. The keys the loop over the headers locates are the keys of the set
    that carry the key id of one header of the token, namely of the first
    header for whose key id the set has a key; when the set has a key for no
    header, no key is located. *)
Theorem X16_lookupKeys_first_matching_header (jwks : JSONWebKeySet)
    (headers : list Header) :
  ((∀ h, h ∈ headers → JSONWebKeySet_Key jwks (Header_KeyID h) = [])
   ∧ lookupKeys jwks headers [] = [])
  ∨ ∃ before h after,
      headers = before ++ h :: after
      ∧ (∀ h', h' ∈ before → JSONWebKeySet_Key jwks (Header_KeyID h') = [])
      ∧ lookupKeys jwks headers [] ≠ []
      ∧ ∀ key, key ∈ lookupKeys jwks headers []
               ↔ key ∈ Keys jwks ∧ KeyID key = Header_KeyID h.
Proof.
  destruct (lookupKeys_cases jwks headers [])
    as [[Hnone Hres]|(before & h & after & -> & Hb & Hne & Hres)].
  - left. split; [done|]. rewrite Hres. by destruct headers.
  - right. exists before, h, after. rewrite Hres. split; [done|]. split; [done|].
    split; [done|]. intros key. unfold JSONWebKeySet_Key.
    rewrite list_elem_of_filter. split; intros [? ?]; done.
Qed.

(** X17. A token is refused with the no-unique-key error when the key set
    has no key for any header of the token, and also when it has two or more
    keys with the key id of the first header it has a key for, whatever the
    algorithms of these keys are. *)
Theorem X17_verifyTokenAndGetClaims_needs_unique_key (recv : jwtAuthenticator)
    (jwtRaw : string) (jwks : JSONWebKeySet) (token : JSONWebToken) :
  Strings.Count jwtRaw "." = 2 →
  jwt_ParseSigned jwtRaw = Ok token →
  ((∀ h, h ∈ token_Headers token → JSONWebKeySet_Key jwks (Header_KeyID h) = []) →
   verifyTokenAndGetClaims recv jwtRaw jwks = Fail noUniqueKey)
  ∧ (∀ before h after,
       token_Headers token = before ++ h :: after →
       (∀ h', h' ∈ before → JSONWebKeySet_Key jwks (Header_KeyID h') = []) →
       (2 ≤ length (JSONWebKeySet_Key jwks (Header_KeyID h)))%nat →
       verifyTokenAndGetClaims recv jwtRaw jwks = Fail noUniqueKey).
Proof.
  intros Hcount Htoken. unfold verifyTokenAndGetClaims. rewrite Hcount, Htoken. simpl.
  split.
  - intros Hnone.
    destruct (lookupKeys_cases jwks (token_Headers token) [])
      as [[_ ->]|(before & h & after & Hh & _ & Hne & _)].
    + by destruct (token_Headers token).
    + destruct Hne. apply Hnone. rewrite Hh. apply elem_of_app. right. by left.
  - intros before h after Hh Hb Hlen.
    assert (lookupKeys jwks (token_Headers token) []
            = JSONWebKeySet_Key jwks (Header_KeyID h)) as ->.
    { rewrite Hh. clear Hh. generalize (@nil JSONWebKey) as keys.
      induction before as [|h0 before IH]; intros keys; simpl.
      - destruct (JSONWebKeySet_Key jwks (Header_KeyID h)); [simpl in Hlen; lia|done].
      - rewrite (Hb h0) by (by left). simpl. apply IH.
        intros h' Hin. apply Hb. by right. }
    destruct (JSONWebKeySet_Key jwks (Header_KeyID h)) as [|k1 [|k2 ks]];
      simpl in Hlen; try lia. done.
Qed.

(** X18. [Authenticate] succeeds exactly when the key set was fetched and
    decoded, the strategy found a token, the token was accepted against that
    key set, and the subject could be extracted from its claims; the subject
    context then holds that subject, and the world is the one the request
    left. *)
Theorem X18_jwt_Authenticate_succeeds (recv : jwtAuthenticator) (ctx : Context)
    (as_ : RequestContext) (sc sc' : SubjectContext) (w w' : W) :
  Authenticate recv ctx as_ sc w = ((sc', None), w')
  ↔ ∃ rawBody jwks jwtRaw rawClaims subject,
      SendRequest (e recv) ctx None w = ((rawBody, None), w')
      ∧ json_Unmarshal_JSONWebKeySet rawBody = Ok jwks
      ∧ adg_GetAuthData (adg recv) as_ = (jwtRaw, None)
      ∧ verifyTokenAndGetClaims recv jwtRaw jwks = Ok rawClaims
      ∧ se_GetSubject (se recv) rawClaims = (subject, None)
      ∧ sc' = {| sc_Subject := subject |}.
Proof.
  unfold Authenticate. split.
  - destruct (SendRequest (e recv) ctx None w) as [[rawBody [err|]] w1] eqn:Hreq;
      [done|].
    destruct (json_Unmarshal_JSONWebKeySet rawBody) as [jwks|] eqn:Hj; [|done].
    destruct (adg_GetAuthData (adg recv) as_) as [jwtRaw [err|]] eqn:Hadg; [done|].
    destruct (verifyTokenAndGetClaims recv jwtRaw jwks) as [rawClaims|] eqn:Hv; [|done].
    destruct (se_GetSubject (se recv) rawClaims) as [subject [err|]] eqn:Hs; [done|].
    intros [= <- <-]. by exists rawBody, jwks, jwtRaw, rawClaims, subject.
  - intros (rawBody & jwks & jwtRaw & rawClaims & subject
            & -> & -> & -> & -> & -> & ->). done.
Qed.

(** X19. Every call of [Authenticate] sends the request for the key set,
    once, and does nothing else to the world, whether the request carries a
    token or not. When the token was accepted, the subject of the subject
    context is overwritten with what the extractor returned and the error of
    the extractor is returned, also when the extractor failed. In every
    other case the subject context is handed back as it came, with an
    error. *)
Theorem X19_jwt_Authenticate_effects (recv : jwtAuthenticator) (ctx : Context)
    (as_ : RequestContext) (sc : SubjectContext) (w : W) :
  let accepted rawClaims :=
    ∃ rawBody w' jwks jwtRaw,
      SendRequest (e recv) ctx None w = ((rawBody, None), w')
      ∧ json_Unmarshal_JSONWebKeySet rawBody = Ok jwks
      ∧ adg_GetAuthData (adg recv) as_ = (jwtRaw, None)
      ∧ verifyTokenAndGetClaims recv jwtRaw jwks = Ok rawClaims in
  snd (Authenticate recv ctx as_ sc w) = snd (SendRequest (e recv) ctx None w)
  ∧ (∀ rawClaims, accepted rawClaims →
       fst (Authenticate recv ctx as_ sc w)
       = ({| sc_Subject := fst (se_GetSubject (se recv) rawClaims) |},
          snd (se_GetSubject (se recv) rawClaims)))
  ∧ ((¬ ∃ rawClaims, accepted rawClaims) →
     ∃ err, fst (Authenticate recv ctx as_ sc w) = (sc, Some err)).
Proof.
  intros accepted. subst accepted. unfold Authenticate.
  destruct (SendRequest (e recv) ctx None w) as [[rawBody [err|]] w1] eqn:Hreq; simpl.
  { split; [done|]. split; [|by eauto].
    by intros rawClaims (? & ? & ? & ? & [=] & _). }
  destruct (json_Unmarshal_JSONWebKeySet rawBody) as [jwks|err] eqn:Hj.
  2:{ split; [done|]. split; [|by eauto].
      intros rawClaims (? & ? & ? & ? & [= <- <-] & Hj' & _). congruence. }
  destruct (adg_GetAuthData (adg recv) as_) as [jwtRaw [err|]] eqn:Hadg; simpl.
  { split; [done|]. split; [|by eauto].
    by intros rawClaims (? & ? & ? & ? & _ & _ & [=] & _). }
  destruct (verifyTokenAndGetClaims recv jwtRaw jwks) as [rawClaims|err] eqn:Hv.
  2:{ split; [done|]. split; [|by eauto].
      intros rawClaims (? & ? & ? & ? & [= <- <-] & Hj' & [= <-] & Hv'). congruence. }
  split; [by destruct (se_GetSubject (se recv) rawClaims) as [subject [err|]]|].
  split.
  - intros rawClaims' (? & ? & ? & ? & [= <- <-] & Hj' & [= <-] & Hv').
    assert (rawClaims' = rawClaims) as -> by congruence.
    by destruct (se_GetSubject (se recv) rawClaims) as [subject [err|]].
  - intros Hnot. destruct Hnot. exists rawClaims, rawBody, w1, jwks, jwtRaw. done.
Qed.

End JwtVerification.

(** ** The JWT authenticator: overrides *)

Section JwtOverrides.
Import Authenticators.
Context {W : Type} `{!Libraries W, !JSONText}.

(** The call with an override that decodes, as one equation. *)
Lemma WithConfig_override (σ : store) (this : positive) (base : jwtAuthenticator)
    (config : string) (assertions : Expectation) :
  σ !! this = Some base → config ≠ "" →
  yaml_Unmarshal_assertions config = Ok assertions →
  WithConfig this config σ
  = Some ((Some (fresh (dom σ)), None),
          <[fresh (dom σ) := {| e := e base; a := assertions;
                                se := se base; adg := adg base |}]> σ).
Proof.
  intros Hthis Hconfig Hyaml. unfold WithConfig.
  assert ((String.length config =? 0)%nat = false) as ->.
  { destruct config; [done|reflexivity]. }
  by rewrite Hyaml, Hthis.
Qed.

Lemma fresh_free (σ : store) : σ !! fresh (dom σ) = None.
Proof. apply not_elem_of_dom. apply is_fresh. Qed.

(** X20. Whatever the configuration is, a call of [WithConfig] that returns
    leaves every authenticator of the store as it was: the store only grows,
    and on an error it does not change. It returns a pointer or an error,
    never both, and the authenticator behind a returned pointer has the
    endpoint, the subject extractor and the auth data getter of the one the
    call was made on. *)
Theorem X20_WithConfig_frame (σ σ' : store) (this : positive) (config : string)
    (res : option positive * option error) :
  WithConfig this config σ = Some (res, σ') →
  σ ⊆ σ'
  ∧ ((∃ p, res = (Some p, None)) ∨ (∃ err, res = (None, Some err) ∧ σ' = σ))
  ∧ (∀ p obj, fst res = Some p → σ' !! p = Some obj →
       ∃ base, σ !! this = Some base
               ∧ e obj = e base ∧ se obj = se base ∧ adg obj = adg base).
Proof.
  unfold WithConfig.
  destruct (String.length config =? 0)%nat.
  { intros [= <- <-]. split; [done|]. split; [by eauto|].
    intros p obj [= <-] Hobj. by exists obj. }
  destruct (yaml_Unmarshal_assertions config) as [assertions|err].
  - destruct (σ !! this) as [base|] eqn:Hthis; [|done]. simpl.
    intros [= <- <-]. split; [apply insert_subseteq, fresh_free|].
    split; [by eauto|].
    intros p obj [= <-]. rewrite lookup_insert_eq. intros [= <-]. by exists base.
  - intros [= <- <-]. split; [done|]. split; [by eauto|]. done.
Qed.

(** X21. Overrides compose: an override of an override is a third
    authenticator, with the assertions of the second override and still the
    endpoint, the subject extractor and the auth data getter of the base; the
    base and the first override stay in the store as they were. *)
Theorem X21_WithConfig_override_of_override (σ : store) (this : positive)
    (base : jwtAuthenticator) (config1 config2 : string)
    (assertions1 assertions2 : Expectation) :
  σ !! this = Some base →
  config1 ≠ "" → yaml_Unmarshal_assertions config1 = Ok assertions1 →
  config2 ≠ "" → yaml_Unmarshal_assertions config2 = Ok assertions2 →
  ∃ p1 p2 σ1 σ2,
    WithConfig this config1 σ = Some ((Some p1, None), σ1)
    ∧ WithConfig p1 config2 σ1 = Some ((Some p2, None), σ2)
    ∧ p1 ≠ this ∧ p2 ≠ this ∧ p2 ≠ p1
    ∧ σ2 !! this = Some base
    ∧ σ2 !! p1 = Some {| e := e base; a := assertions1;
                         se := se base; adg := adg base |}
    ∧ σ2 !! p2 = Some {| e := e base; a := assertions2;
                         se := se base; adg := adg base |}.
Proof.
  intros Hthis Hc1 Hy1 Hc2 Hy2.
  set (p1 := fresh (dom σ)).
  set (o1 := {| e := e base; a := assertions1; se := se base; adg := adg base |}).
  set (σ1 := <[p1 := o1]> σ).
  set (p2 := fresh (dom σ1)).
  assert (Hp1 : σ !! p1 = None) by apply fresh_free.
  assert (Hp2 : σ1 !! p2 = None) by apply fresh_free.
  assert (Hσ1p1 : σ1 !! p1 = Some o1) by apply lookup_insert_eq.
  assert (p1 ≠ this) by congruence.
  assert (p2 ≠ p1) by congruence.
  assert (Hσ1this : σ1 !! this = Some base).
  { unfold σ1. by rewrite lookup_insert_ne. }
  assert (p2 ≠ this) by congruence.
  exists p1, p2, σ1, (<[p2 := {| e := e o1; a := assertions2;
                                se := se o1; adg := adg o1 |}]> σ1).
  split; [by apply WithConfig_override|].
  split; [by apply WithConfig_override|].
  split; [done|]. split; [done|]. split; [done|].
  split; [by rewrite lookup_insert_ne|].
  split; [by rewrite lookup_insert_ne|].
  by rewrite lookup_insert_eq.
Qed.

End JwtOverrides.

(** ** The authentication data authenticator *)

Section AuthenticationDataProperties.
Import Authenticators AuthenticationData.
Context {W : Type} `{!Libraries W, !JSONText, !ConfigDecoder}.

(** X22. When the strategy finds no authentication data, [Authenticate]
    fails with the argument error around the error of the strategy, and no
    request is sent: the world and the subject context are as before. *)
Theorem X22_ada_Authenticate_without_data (recv : authenticationDataAuthenticator)
    (ctx : Context) (as_ : RequestContext) (sc : SubjectContext) (w : W)
    (cause : error) :
  snd (adg_GetAuthData (ada_AuthDataGetter recv) as_) = Some cause →
  Authenticate recv ctx as_ sc w
  = ((sc, Some (ArgumentError "failed to extract authentication data" cause)), w).
Proof.
  unfold Authenticate.
  destruct (adg_GetAuthData (ada_AuthDataGetter recv) as_) as [ref err].
  by intros [= ->].
Qed.

(** X23. [Authenticate] succeeds exactly when the strategy found the
    authentication data, the request that carries this data as its body was
    answered, and a subject could be extracted from the answer; the subject
    context then holds that subject. An error of the request is returned as
    it is, with the subject context untouched. *)
Theorem X23_ada_Authenticate_succeeds (recv : authenticationDataAuthenticator)
    (ctx : Context) (as_ : RequestContext) (sc sc' : SubjectContext) (w w' : W) :
  (Authenticate recv ctx as_ sc w = ((sc', None), w')
   ↔ ∃ authDataRef rawBody subject,
       adg_GetAuthData (ada_AuthDataGetter recv) as_ = (authDataRef, None)
       ∧ SendRequest (ada_Endpoint recv) ctx (Some authDataRef) w
         = ((rawBody, None), w')
       ∧ se_GetSubject (ada_SubjectExtractor recv) rawBody = (subject, None)
       ∧ sc' = {| sc_Subject := subject |})
  ∧ (∀ authDataRef rawBody err,
       adg_GetAuthData (ada_AuthDataGetter recv) as_ = (authDataRef, None) →
       SendRequest (ada_Endpoint recv) ctx (Some authDataRef) w
       = ((rawBody, Some err), w') →
       Authenticate recv ctx as_ sc w = ((sc, Some err), w')).
Proof.
  unfold Authenticate. split; [split|].
  - destruct (adg_GetAuthData (ada_AuthDataGetter recv) as_) as [ref [err|]] eqn:Hadg;
      [done|].
    destruct (SendRequest (ada_Endpoint recv) ctx (Some ref) w)
      as [[rawBody [err|]] w1] eqn:Hreq; [done|].
    destruct (se_GetSubject (ada_SubjectExtractor recv) rawBody)
      as [subject [err|]] eqn:Hs; [done|].
    intros [= <- <-]. by exists ref, rawBody, subject.
  - intros (ref & rawBody & subject & -> & -> & -> & ->). done.
  - by intros ref rawBody err -> ->.
Qed.

End AuthenticationDataProperties.

(** ** Rules with the stages of the sources *)

Section ExecuteWithStages.
Import Handler Rules Outcomes.
Context {W : Type}.

(** X24. A rule whose mutator is the header mutator: when authentication,
    authorization and hydration succeed, [Execute] returns the subject
    context as the hydrator left it, with a nil error; the mutator changes
    neither the subject context nor the world, and the error handler is not
    called. *)
Theorem X24_Execute_with_headerMutator (r : rule W) (recv : Mutators.headerMutator)
    (ctx : Context) (reqCtx : RequestContext) (s : ExecState W)
    (sc1 sc2 sc3 : SubjectContext) (w1 w2 w3 : W) :
  m r = Mutators.asMutator recv →
  Authenticate (an r) ctx reqCtx subjectContext0 (world s) = ((sc1, None), w1) →
  Authorize (az r) ctx reqCtx sc1 w1 = ((sc2, None), w2) →
  Hydrate (h r) ctx sc2 w2 = ((sc3, None), w3) →
  Execute r ctx reqCtx s
  = ((Some sc3, None),
     {| world := w3;
        calls := calls s ++ [CallAuthenticate; CallAuthorize; CallHydrate; CallMutate];
        logs := logs s |}).
Proof.
  intros Hm Han Haz Hh.
  unfold Execute, mbind, M_bind, mret, M_ret, invoke, logInfo.
  fold subjectContext0. destruct s as [w0 cs0 ls0]. simpl in *.
  rewrite Han. simpl. rewrite Haz. simpl. rewrite Hh. simpl. rewrite Hm. simpl.
  by rewrite <- !app_assoc.
Qed.

(** X25. A rule whose authenticator is a JWT authenticator: when the request
    for the key set fails, [Execute] calls the authenticator and then the
    error handler with the error of the request, calls no other stage, and
    returns nil with what the handler returned. *)
Theorem X25_Execute_with_jwtAuthenticator_transport_error
    `{!Authenticators.Libraries W, !JSONText}
    (r : rule W) (recv : Authenticators.jwtAuthenticator)
    (ctx : Context) (reqCtx : RequestContext) (s : ExecState W)
    (rawBody : string) (err : error) (w1 : W) :
  an r = Authenticators.asAuthenticator recv →
  Authenticators.SendRequest (Authenticators.e recv) ctx None (world s)
  = ((rawBody, Some err), w1) →
  Execute r ctx reqCtx s
  = ((None, fst (HandleError (eh r) ctx err w1)),
     {| world := snd (HandleError (eh r) ctx err w1);
        calls := calls s ++ [CallAuthenticate; CallHandleError err];
        logs := logs s ++ [ {| log_level := InfoLevel; log_err := Some err;
                               log_fields := [];
                               log_msg := "Authentication failed" |} ] |}).
Proof.
  intros Han Hreq.
  unfold Execute, mbind, M_bind, mret, M_ret, invoke, logInfo.
  destruct s as [w0 cs0 ls0]. simpl in *.
  rewrite Han. simpl. unfold Authenticators.Authenticate. rewrite Hreq. simpl.
  destruct (HandleError (eh r) ctx err w1) as [res w2]. simpl.
  by rewrite <- !app_assoc.
Qed.

End ExecuteWithStages.

(** ** The further properties on the fixtures *)

Section MoreRuns.
Import Handler Rules Authenticators Outcomes Fixtures MoreFixtures.

(** X1 on the fixtures: R1 of sourceA answers before and after more events. *)
Lemma X1_FindRule_settled_witness :
  ∃ rl,
    id rl = "R1" ∧ srcID rl = "sourceA"
    ∧ FindRule loadedA "/api/R1" = (Some rl, None)
    ∧ FindRule (watchRuleSetChanges loadedA [created "sourceB" "R3"; removed "sourceA"])
        "/api/R3"
      = (Some rl, None).
Proof.
  destruct (X1_FindRule_settled (W := nat) (Cfg := string) loadedA
              [created "sourceB" "R3"; removed "sourceA"] "/api/R1" "/api/R3")
    as (rl & rest & Hrules & Hbefore & Hafter); [discriminate|].
  exists rl. injection Hrules as <- _. done.
Defined.

Lemma ruleConfigs_build (rc : RuleConfig string) :
  rc ∈ [ruleConfig "R1" "anonymous"; ruleConfig "R2" "anonymous"] →
  ∃ rl, newRule emptyRepository "sourceA" rc = Ok rl.
Proof.
  intros [->|[->|?%elem_of_nil]%elem_of_cons]%elem_of_cons; [by eexists..|done].
Qed.

(** X2 on the fixtures. *)
Lemma X2_onRuleSetCreated_appends_in_order_witness :
  ∃ built,
    rules (onRuleSetCreated emptyRepository "sourceA" "R1,R2") = [] ++ built
    ∧ Forall2 (λ rc rl, id rl = ID rc ∧ url rl = Rules.URL rc
                        ∧ methods rl = Methods rc ∧ srcID rl = "sourceA")
        [ruleConfig "R1" "anonymous"; ruleConfig "R2" "anonymous"] built.
Proof.
  apply (X2_onRuleSetCreated_appends_in_order (W := nat) (Cfg := string)
           emptyRepository "sourceA" "R1,R2"); [reflexivity|apply ruleConfigs_build].
Defined.

(** X4 on the fixtures: the first rule after two Create events. *)
Lemma X4_watchRuleSetChanges_provenance_witness :
  let queue := [created "sourceA" "R1,R2"; created "sourceB" "R3"] in
  let rl := default anyMethodRule (head (rules (watchRuleSetChanges emptyRepository queue))) in
  rl ∈ rules emptyRepository
  ∨ ∃ evt, evt ∈ queue ∧ ChangeType_ evt = Create ∧ srcID rl = Src evt.
Proof.
  intros queue rl.
  apply (X4_watchRuleSetChanges_provenance (W := nat) (Cfg := string)
           emptyRepository queue rl).
  apply list_elem_of_here.
Defined.


(** X11 on the fixtures: the attributes path leads to the number 42. *)
Lemma X11_GetSubject_attributes_error_witness :
  GetSubject attributesAtSub claimsNumber
  = (None, Some (attributesFromError
                   (json_UnmarshalTypeError "number" "map[string]interface {}"))).
Proof.
  destruct (X11_GetSubject_attributes_error attributesAtSub claimsNumber "")
    as [Htype _]; [by left|discriminate|].
  apply (Htype (JNumber 42)); [reflexivity|discriminate|discriminate].
Defined.

(** X12 on the fixtures: a configuration that names the address only. *)
Lemma X12_NewJwtAuthenticatorFromYAML_fills_defaults_witness :
  Method (e baseAuthenticator) = "GET"
  ∧ Headers (e baseAuthenticator) !! "Accept-Type" = Some "application/json".
Proof.
  destruct (X12_NewJwtAuthenticatorFromYAML_fills_defaults (W := nat)
              "jwks_endpoint: {url: https://idp/jwks}"
              (configFor "https://idp/jwks") baseAuthenticator)
    as (_ & Hmethod & Hheader & _); [reflexivity|reflexivity|].
  split; [exact Hmethod|exact Hheader].
Defined.

(** X13 on the fixtures: a configuration with an allow-list of its own, an
    issuer, an audience, a scope and a clock skew. *)
Lemma X13_NewJwtAuthenticatorFromYAML_keeps_assertions_witness :
  ∃ recv,
    NewJwtAuthenticatorFromYAML (Libraries0 := configuredLibraries) configuredYAML
    = (Some recv, None)
    ∧ a recv = configuredAssertions
    ∧ AllowedAlgorithms (a recv) = ["RS256"; "HS256"].
Proof.
  eexists. split; [reflexivity|].
  destruct (X13_NewJwtAuthenticatorFromYAML_keeps_assertions (W := nat)
              (Libraries0 := configuredLibraries) configuredYAML configured
              _ eq_refl eq_refl) as (Hkept & _).
  rewrite Hkept; [done|discriminate].
Defined.

(** X17 on the fixtures: two keys with the key id of the token. *)
Lemma X17_verifyTokenAndGetClaims_needs_unique_key_witness :
  verifyTokenAndGetClaims baseAuthenticator "h1.alice.sig" twinKeySet = Fail noUniqueKey.
Proof.
  destruct (X17_verifyTokenAndGetClaims_needs_unique_key (W := nat) baseAuthenticator
              "h1.alice.sig" twinKeySet
              {| token_Headers := [header "k1" "ES256"]; token_payload := "alice" |})
    as [_ Htwins]; [reflexivity|reflexivity|].
  apply (Htwins [] (header "k1" "ES256") []); [reflexivity| |simpl; lia].
  by intros h' ?%elem_of_nil.
Defined.

(** X20 on the fixtures: an override of the issuer. *)
Lemma X20_WithConfig_frame_witness :
  ∃ res σ',
    WithConfig 1%positive "jwt_assertions: {issuer: corp}"
      {[ 1%positive := baseAuthenticator ]} = Some (res, σ')
    ∧ ({[ 1%positive := baseAuthenticator ]} : store) ⊆ σ'.
Proof.
  eexists _, _. split; [reflexivity|].
  eapply (X20_WithConfig_frame (W := nat) _ _ 1%positive
            "jwt_assertions: {issuer: corp}" _).
  reflexivity.
Defined.

(** X21 on the fixtures: the issuer is overridden twice. *)
Lemma X21_WithConfig_override_of_override_witness :
  ∃ p1 p2 σ1 σ2,
    WithConfig 1%positive "jwt_assertions: {issuer: corp}"
      {[ 1%positive := baseAuthenticator ]} = Some ((Some p1, None), σ1)
    ∧ WithConfig p1 "jwt_assertions: {issuer: corp}" σ1 = Some ((Some p2, None), σ2)
    ∧ p2 ≠ p1
    ∧ σ2 !! 1%positive = Some baseAuthenticator
    ∧ (e <$> σ2 !! p2) = Some (e baseAuthenticator).
Proof.
  destruct (X21_WithConfig_override_of_override (W := nat)
              {[ 1%positive := baseAuthenticator ]} 1%positive baseAuthenticator
              "jwt_assertions: {issuer: corp}" "jwt_assertions: {issuer: corp}"
              issuerCorp issuerCorp)
    as (p1 & p2 & σ1 & σ2 & H1 & H2 & _ & _ & Hne & Hbase & _ & Hp2);
    [reflexivity|discriminate|reflexivity|discriminate|reflexivity|].
  exists p1, p2, σ1, σ2. rewrite Hp2. done.
Defined.

(** X22 on the fixtures: a request without credentials; no request is sent. *)
Lemma X22_ada_Authenticate_without_data_witness :
  ∃ cause,
    AuthenticationData.Authenticate identityInfo [] noCredentials subjectContext0 0
    = ((subjectContext0,
        Some (ArgumentError "failed to extract authentication data" cause)), 0).
Proof.
  eexists.
  apply (X22_ada_Authenticate_without_data (W := nat) identityInfo [] noCredentials
           subjectContext0 0).
  reflexivity.
Defined.

(** X24 on the fixtures: the world shows the three stages before the
    mutator (1, 2 and 4) and nothing else. *)
Lemma X24_Execute_with_headerMutator_witness :
  Execute headerMutatorRule [] request {| world := 0; calls := []; logs := [] |}
  = ((Some subjectContext0, None),
     {| world := 7;
        calls := [CallAuthenticate; CallAuthorize; CallHydrate; CallMutate];
        logs := [] |}).
Proof.
  apply (X24_Execute_with_headerMutator (W := nat) headerMutatorRule
           Mutators.mkHeaderMutator [] request
           {| world := 0; calls := []; logs := [] |}
           subjectContext0 subjectContext0 subjectContext0 1 3 7); reflexivity.
Defined.

(** X25 on the fixtures: the endpoint refuses the connection. *)
Lemma X25_Execute_with_jwtAuthenticator_transport_error_witness :
  Execute (jwtRule downAuthenticator) [] noCredentials
    {| world := 0; calls := []; logs := [] |}
  = ((None, Some (LibraryError "http" "connection refused")),
     {| world := 17;
        calls := [CallAuthenticate;
                  CallHandleError (LibraryError "http" "connection refused")];
        logs := [ {| log_level := InfoLevel;
                     log_err := Some (LibraryError "http" "connection refused");
                     log_fields := []; log_msg := "Authentication failed" |} ] |}).
Proof.
  apply (X25_Execute_with_jwtAuthenticator_transport_error (W := nat)
           (jwtRule downAuthenticator) downAuthenticator [] noCredentials
           {| world := 0; calls := []; logs := [] |} "" _ 1); reflexivity.
Defined.

(** X7 on the fixtures: a value that is an em space (U+2003) gives the empty
    token. *)
Lemma X7_GetAuthData_empty_token_witness :
  Extractors.GetAuthData
    {| Extractors.Name := "access_token"; Extractors.Prefix := "Bearer" |}
    (requestContextOf ∅ ∅ {[ "access_token" := emSpace ]} ∅ "")
  = ("", None).
Proof.
  apply (X7_GetAuthData_empty_token
           {| Extractors.Name := "access_token"; Extractors.Prefix := "Bearer" |}
           (requestContextOf ∅ ∅ {[ "access_token" := emSpace ]} ∅ "")).
  split; [discriminate|].
  exists [0x2003%N]. split; [by repeat constructor|reflexivity].
Defined.

(** X8 on the fixtures: a no-break space before the prefix keeps the prefix
    in the token. *)
Lemma X8_GetAuthData_prefix_at_start_only_witness :
  Extractors.GetAuthData
    {| Extractors.Name := "access_token"; Extractors.Prefix := "Bearer" |}
    (requestContextOf ∅ ∅ {[ "access_token" := nbsp +:+ "Bearer abc" +:+ nbsp ]} ∅ "")
  = ("Bearer abc", None).
Proof.
  destruct (X8_GetAuthData_prefix_at_start_only
              {| Extractors.Name := "access_token"; Extractors.Prefix := "Bearer" |}
              (requestContextOf ∅ ∅
                 {[ "access_token" := nbsp +:+ "Bearer abc" +:+ nbsp ]} ∅ "")
              (requestContextOf ∅ ∅ ∅ ∅ "")) as [Hwhole _].
  rewrite Hwhole; [reflexivity|discriminate|reflexivity].
Defined.

(** X19 on the fixtures: the token of alice is accepted and the extractor
    fails on her claims; the subject the context held is gone, and the error
    of the extractor is returned. *)
Lemma X19_jwt_Authenticate_effects_witness :
  Authenticate failingExtractor [] (bearer "h1.alice.sig") subjectContextOld 0
  = (({| sc_Subject := None |},
      Some (attributesFromError
              (json_UnmarshalTypeError "string" "map[string]interface {}"))), 1).
Proof.
  destruct (X19_jwt_Authenticate_effects (W := nat) failingExtractor []
              (bearer "h1.alice.sig") subjectContextOld 0) as (Hworld & Haccepted & _).
  apply injective_projections; [|exact Hworld].
  apply (Haccepted claimsAlice).
  exists "jwks", 1, keySet, "h1.alice.sig". repeat split; reflexivity.
Defined.

End MoreRuns.
